(** * feathers-giveth: the [Pledges] Transfer-event handler

    A shallow embedding of [Pledges] (the class that reconciles
    liquidPledging [Transfer] events with the donation ledger) and of the
    block-timestamp cache it keeps, followed by the properties established
    about them. *)

From Stdlib Require Import ZArith String DecimalString DecimalZ.
From stdpp Require Import gmap strings list fin_maps sorting.

Local Open Scope string_scope.
Local Open Scope list_scope.

(** ** The block-timestamp cache: [getBlockTimestamp] *)

Module BlockTimestamps.

(** What [web3.eth.getBlock] resolves with; only [timestamp] (epoch seconds)
    is read. *)
Record Block := { timestamp : Z }.

(** [new Date(block.timestamp * 1000)]: a date is its epoch milliseconds. *)
Definition new_Date (block : Block) : Z := (timestamp block * 1000)%Z.

(** The comparator [(a, b) => b - a]: [a] goes before [b] when [b - a] is
    not positive. *)
Definition descending (a b : N) : Prop := (b ≤ a)%N.

#[global] Instance descending_dec : RelDecision descending :=
  λ a b, decide (b ≤ a)%N.

(** [Object.keys(this.blockTimes).sort((a, b) => b - a)]: the block numbers
    held by the cache, highest first. *)
Definition sorted_keys (blockTimes : gmap N Z) : list N :=
  merge_sort descending (map_to_list blockTimes).*1.

(** The "only keep 50 block ts cached" step: when the cache holds more than
    50 keys, [forEach(key => delete this.blockTimes[key])] runs over the
    whole sorted key list. *)
Definition evict (blockTimes : gmap N Z) : gmap N Z :=
  if decide (50 < size blockTimes)
  then foldl (λ m key, delete key m) blockTimes (sorted_keys blockTimes)
  else blockTimes.

(** The state [getBlockTimestamp] works on.  [blockTimes] and
    [fetchingBlocks] are the two fields of the [Pledges] object; a [resolve]
    callback pushed on a [fetchingBlocks] list is named by the number of the
    promise it belongs to.  The other three fields are the surroundings:
    the [getBlock] requests web3 has not answered yet, the listener
    promises that were resolved (with the value), and the next unused
    promise number. *)
Record state := {
  blockTimes : gmap N Z;
  fetchingBlocks : gmap N (list nat);
  outstanding : list N;
  resolved : list (nat * Z);
  next_promise : nat
}.

Definition init : state :=
  {| blockTimes := ∅; fetchingBlocks := ∅; outstanding := [];
     resolved := []; next_promise := 0 |}.

(** The promise a call of [getBlockTimestamp] hands back. *)
Inductive promise :=
| Cached (ts : Z)          (* Promise.resolve(this.blockTimes[blockNumber]) *)
| Listener (p : nat)       (* new Promise(resolve => ...push(resolve)) *)
| Fetch (blockNumber : N). (* this.web3.eth.getBlock(blockNumber).then(...) *)

(** The synchronous part of [getBlockTimestamp(blockNumber)]. *)
Definition getBlockTimestamp (blockNumber : N) (st : state) : state * promise :=
  match blockTimes st !! blockNumber with
  | Some ts => (st, Cached ts)
  | None =>
    match fetchingBlocks st !! blockNumber with
    | Some listeners =>
      ({| blockTimes := blockTimes st;
          fetchingBlocks :=
            <[blockNumber := listeners ++ [next_promise st]]> (fetchingBlocks st);
          outstanding := outstanding st;
          resolved := resolved st;
          next_promise := S (next_promise st) |},
       Listener (next_promise st))
    | None =>
      ({| blockTimes := blockTimes st;
          fetchingBlocks := <[blockNumber := []]> (fetchingBlocks st);
          outstanding := blockNumber :: outstanding st;
          resolved := resolved st;
          next_promise := next_promise st |},
       Fetch blockNumber)
    end
  end.

(** The [.then(block => ...)] callback of the fetch for [blockNumber]; the
    second component is what the fetch promise settles with ([None]: the
    callback threw, [forEach] of [undefined]). *)
Definition on_block (blockNumber : N) (block : Block) (st : state)
  : state * option Z :=
  let ts := new_Date block in
  let blockTimes' := evict (<[blockNumber := ts]> (blockTimes st)) in
  match fetchingBlocks st !! blockNumber with
  | Some listeners =>
    ({| blockTimes := blockTimes';
        fetchingBlocks := delete blockNumber (fetchingBlocks st);
        outstanding := outstanding st;
        resolved := resolved st ++ ((λ p, (p, ts)) <$> listeners);
        next_promise := next_promise st |},
     Some ts)
  | None =>
    ({| blockTimes := blockTimes';
        fetchingBlocks := fetchingBlocks st;
        outstanding := outstanding st;
        resolved := resolved st;
        next_promise := next_promise st |},
     None)
  end.

(** One answered request leaves the list of outstanding requests. *)
Fixpoint answered (blockNumber : N) (l : list N) : list N :=
  match l with
  | [] => []
  | b :: l' => if decide (b = blockNumber) then l' else b :: answered blockNumber l'
  end.

Definition set_outstanding (l : list N) (st : state) : state :=
  {| blockTimes := blockTimes st; fetchingBlocks := fetchingBlocks st;
     outstanding := l; resolved := resolved st;
     next_promise := next_promise st |}.

(** What can happen to the cache: somebody calls [getBlockTimestamp], or
    web3 answers an outstanding [getBlock] request, with a block or with a
    rejection (in which case the [.then] callback does not run). *)
Inductive event :=
| Call (blockNumber : N)
| GetBlockResolves (blockNumber : N) (block : Block)
| GetBlockRejects (blockNumber : N).

Definition exec (ev : event) (st : state) : option state :=
  match ev with
  | Call b => Some (getBlockTimestamp b st).1
  | GetBlockResolves b block =>
    if decide (b ∈ outstanding st)
    then Some (on_block b block (set_outstanding (answered b (outstanding st)) st)).1
    else None
  | GetBlockRejects b =>
    if decide (b ∈ outstanding st)
    then Some (set_outstanding (answered b (outstanding st)) st)
    else None
  end.

Fixpoint run (evs : list event) (st : state) : option state :=
  match evs with
  | [] => Some st
  | ev :: evs' =>
    match exec ev st with
    | Some st' => run evs' st'
    | None => None
    end
  end.

Definition reachable (st : state) : Prop := ∃ evs, run evs init = Some st.

(** The event is web3's answer to the [getBlock] request for block [b]. *)
Definition answers (b : N) (ev : event) : bool :=
  match ev with
  | Call _ => false
  | GetBlockResolves b' _ | GetBlockRejects b' => bool_decide (b' = b)
  end.


(** The [resolve] callback of promise [p] sits on the listener list of [b]. *)
Definition listening (p : nat) (b : N) (st : state) : Prop :=
  ∃ listeners, fetchingBlocks st !! b = Some listeners ∧ p ∈ listeners.

(** What holds of every state the cache can get into. *)
Record inv (st : state) : Prop := {
  inv_nodup : NoDup (outstanding st);
  inv_marked : ∀ b, b ∈ outstanding st →
    is_Some (fetchingBlocks st !! b) ∧ blockTimes st !! b = None;
  inv_fresh : ∀ p b, listening p b st → p < next_promise st;
  inv_owner : ∀ p b1 b2, listening p b1 st → listening p b2 st → b1 = b2;
  inv_pending : ∀ p b, listening p b st → p ∉ (resolved st).*1;
  inv_settled : ∀ p, p ∈ (resolved st).*1 → p < next_promise st
}.

(** Blocks [1..n] are asked for and fetched one after the other, block [k]
    carrying the timestamp [k]. *)
Definition fetch_upto (n : nat) : list event :=
  k ← seq 1 n;
  [Call (N.of_nat k); GetBlockResolves (N.of_nat k) {| timestamp := Z.of_nat k |}].

(** The event is a [getBlock] request that web3 rejects. *)
Definition rejection (ev : event) : bool :=
  match ev with
  | GetBlockRejects _ => true
  | _ => false
  end.

End BlockTimestamps.

(** ** The Transfer-event handler: [Pledges] *)

Module Pledges.

(** *** Values and objects *)

(** The JavaScript values the handler moves around.  A date is its epoch
    milliseconds; [JObj] is an object literal nested in another object (the
    [$unset] directive). *)
#[warnings="-register-all"]
Inductive jsval :=
| JUndefined
| JBool (b : bool)
| JNum (n : Z)
| JStr (s : string)
| JDate (ms : Z)
| JObj (fields : list (string * jsval)).

(** A donation, a mutation or a history entry: an object used as a map from
    field names to values. *)
Abbreviation obj := (gmap string jsval).

(** [o.k], [undefined] when the field is absent. *)
Definition field (o : obj) (k : string) : jsval := default JUndefined (o !! k).

(** What [if (v)], [!v], [!!v] and [v && w] look at. *)
Definition truthy (v : jsval) : bool :=
  match v with
  | JUndefined => false
  | JBool b => b
  | JNum n => negb (n =? 0)%Z
  | JStr s => negb (s =? "")%string
  | JDate _ | JObj _ => true
  end.

(** [v === 'literal']. *)
Definition is_str (v : jsval) (s : string) : bool :=
  match v with
  | JStr s' => (s' =? s)%string
  | _ => false
  end.

(** [v && w] *)
Definition js_and (v w : jsval) : jsval := if truthy v then w else v.

(** The number a decimal string denotes, as [s > 0] and [s * 1000] coerce
    it; the uint fields web3 returns are such strings.  [None] is NaN. *)
Definition to_number (s : string) : option Z :=
  Z.of_int <$> NilEmpty.int_of_string s.

(** [s > 0] *)
Definition gt0 (s : string) : bool :=
  match to_number s with
  | Some n => (0 <? n)%Z
  | None => false
  end.

(** web3-utils' [toBN] on what the handler feeds it, a decimal integer
    string (or a number); [None] when [toBN] throws. *)
Definition toBN (v : jsval) : option Z :=
  match v with
  | JStr s => to_number s
  | JNum n => Some n
  | _ => None
  end.

(** [bn.toString()], in base 10. *)
Definition toString (n : Z) : string := NilEmpty.string_of_int (Z.to_int n).

(** *** What the chain and the stores hand out *)

(** A pledge as [liquidPledging.getPledge] returns it: web3 delivers every
    uint as a decimal string. *)
Module Pledge.
Record t := {
  owner : string;
  nDelegates : string;
  intendedProject : string;
  commitTime : string;
  oldPledge : string;
  pledgeState : string
}.
End Pledge.

Module PledgeAdmin.
Record t := {
  id : jsval;
  type : string;
  typeId : jsval;
  admin_address : jsval   (* admin.address *)
}.
End PledgeAdmin.

(** [ReProcessEvent] and the other things that get thrown. *)
Inductive error :=
| ReProcessEvent
| TypeError
| UnableToDetermine (from to amount : string) (ts : Z) (txHash : string)
                    (donations : list obj)
| InvalidNumber                 (* toBN throws *)
| Rejection (service : string).

(** How an awaited promise ends. *)
Inductive outcome (A : Type) :=
| Fulfilled (a : A)
| RejectedWith (e : error)
| Forever.
Arguments Fulfilled {A} a.
Arguments RejectedWith {A} e.
Arguments Forever {A}.

(** The calls the handler makes that leave a mark outside of it. *)
Inductive call :=
| donations_create (data : obj)
| donations_patch (id : jsval) (data : obj)
| milestones_patch (id : jsval) (data : obj)
| donationsHistory_create (data : obj)
| logger_error (e : error)
| setTimeout_processEvent (retry : bool) (delay : Z)
| queue_purge (txHash : string).

(** The collaborators at the time an event is processed.  A read that
    yields [None] is a rejected promise.  [donations] is the content of the
    donation store ([None]: [find] rejects). *)
Record Services := {
  getPledge : string → option Pledge.t;
  getPledgeDelegate : string → string → option string;   (* idDelegate *)
  pledgeAdmins_get : string → option PledgeAdmin.t;
  donations : option (list obj);
  created : obj → option obj;            (* what donations.create resolves with *)
  patched : jsval → obj → option obj;    (* what donations.patch resolves with *)
  history_created : obj → option obj     (* donations/history create resolves with *)
}.

(** *** Asynchronous code: the calls made so far and how the promise ends *)

Definition M (A : Type) : Type := list call * outcome A.

Definition ret {A} (a : A) : M A := ([], Fulfilled a).
Definition throw {A} (e : error) : M A := ([], RejectedWith e).
Definition emit (c : call) : M unit := ([c], Fulfilled tt).

Definition bind {A B} (f : A → M B) (m : M A) : M B :=
  match m with
  | (calls, Fulfilled a) => let '(calls', r) := f a in (calls ++ calls', r)
  | (calls, RejectedWith e) => (calls, RejectedWith e)
  | (calls, Forever) => (calls, Forever)
  end.

#[global] Instance M_ret : MRet M := @ret.
#[global] Instance M_bind : MBind M := @bind.

(** A read from a collaborator. *)
Definition read {A} (service : string) (r : option A) : M A :=
  match r with
  | Some a => ret a
  | None => throw (Rejection service)
  end.

(** A call to a collaborator that leaves a mark and resolves with [r]. *)
Definition request {A} (c : call) (service : string) (r : option A) : M A :=
  emit c;; read service r.

(** [donations.find({ query: { k: v } })], the [data] of the response. *)
Definition find (sv : Services) (k v : string) : M (list obj) :=
  read "donations.find"
       (filter (λ d, is_str (field d k) v = true) <$> donations sv).

(** [errWrapper] of utils/to, as [processEvent] uses it: the promise it
    returns is fulfilled with [[err]] when the wrapped one is rejected with
    [err], and with no error otherwise. *)
Definition errWrapper {A} (m : M A) : M (option error) :=
  match m with
  | (calls, Fulfilled _) => (calls, Fulfilled None)
  | (calls, RejectedWith e) => (calls, Fulfilled (Some e))
  | (calls, Forever) => (calls, Forever)
  end.

(** [promise.catch(logger.error)] *)
Definition catch_logger_error {A} (m : M A) : M unit :=
  match m with
  | (calls, Fulfilled _) => (calls, Fulfilled tt)
  | (calls, RejectedWith e) => (calls ++ [logger_error e], Fulfilled tt)
  | (calls, Forever) => (calls, Forever)
  end.

(** [{ k1: v1, ... }] and [Object.assign(target, source)]. *)
Definition object (fields : list (string * jsval)) : obj := list_to_map fields.
Definition assign (target source : obj) : obj := source ∪ target.

(** The context [_transfer] gathers for [_doTransfer]; [toDonation] is
    added by the split path. *)
Record TransferInfo := {
  fromPledgeAdmin : PledgeAdmin.t;
  toPledgeAdmin : PledgeAdmin.t;
  fromPledge : Pledge.t;
  toPledge : Pledge.t;
  toPledgeId : string;
  delegate : option PledgeAdmin.t;
  intendedProject : option PledgeAdmin.t;
  donation : obj;
  toDonation : option obj;
  amount : string;
  ts : Z
}.

Definition getDonationStatus (pledge : Pledge.t) (pledgeAdmin : PledgeAdmin.t)
    (hasIntendedProject hasDelegate : jsval) : string :=
  if (Pledge.pledgeState pledge =? "1")%string then "paying"
  else if (Pledge.pledgeState pledge =? "2")%string then "paid"
  else if truthy hasIntendedProject then "to_approve"
  else if (PledgeAdmin.type pledgeAdmin =? "giver")%string || truthy hasDelegate
  then "waiting"
  else "committed".

Section WithHelpers.

(** [pledgeState] of ./helpers, which names a pledge state for the
    [paymentStatus] field; the handler only passes its result on. *)
Variable helpers_pledgeState : string → jsval.

Definition newDonation (sv : Services) (pledgeId amount txHash : string)
    (retry : bool) : M obj :=
  pledge ← read "getPledge" (getPledge sv pledgeId);
  giver ← read "pledgeAdmins.get" (pledgeAdmins_get sv (Pledge.owner pledge));
  data ← find sv "txHash" txHash;
  let donation := head data in
  let mutation := object [
    ("giverAddress", PledgeAdmin.admin_address giver);
    ("amount", JStr amount);
    ("pledgeId", JStr pledgeId);
    ("owner", JStr (Pledge.owner pledge));
    ("ownerId", PledgeAdmin.typeId giver);
    ("ownerType", JStr (PledgeAdmin.type giver));
    ("status", JStr "waiting");
    ("paymentStatus", helpers_pledgeState (Pledge.pledgeState pledge))
  ] in
  match donation with
  | None =>
    if retry then
      let data := assign mutation (object [("txHash", JStr txHash)]) in
      request (donations_create data) "donations.create" (created sv data)
    else throw ReProcessEvent
  | Some donation =>
    request (donations_patch (field donation "_id") mutation) "donations.patch"
            (patched sv (field donation "_id") mutation)
  end.

(** [getDonation] of [_transfer]. *)
Definition getDonation (sv : Services) (from to amount : string) (ts : Z)
    (txHash : string) : M obj :=
  data ← find sv "pledgeId" from;
  match data with
  | [donation] => mret donation
  | _ =>
    let filteredDonationsByTxHash :=
      filter (λ donation, is_str (field donation "txHash") txHash = true) data in
    match filteredDonationsByTxHash with
    | [donation] => mret donation
    | _ =>
      let filteredDonationsByAmount :=
        filter (λ donation, is_str (field donation "amount") amount = true) data in
      match filteredDonationsByAmount with
      | donation :: _ => mret donation
      | [] =>
        match data with
        | [] => throw TypeError   (* donations.data[0].amount *)
        | _ => throw (UnableToDetermine from to amount ts txHash data)
        end
      end
    end
  end.

Definition createDonationMutation (transferInfo : TransferInfo) : M obj :=
  let toPledgeAdmin := toPledgeAdmin transferInfo in
  let toPledge := toPledge transferInfo in
  let delegate := delegate transferInfo in
  let intendedProject := intendedProject transferInfo in
  let donation := donation transferInfo in
  let status :=
    getDonationStatus toPledge toPledgeAdmin
      (JBool (bool_decide (is_Some intendedProject)))
      (JBool (bool_decide (is_Some delegate))) in
  let mutation := object [
    ("amount", JStr (amount transferInfo));
    ("paymentStatus", helpers_pledgeState (Pledge.pledgeState toPledge));
    ("owner", JStr (Pledge.owner toPledge));
    ("ownerId", PledgeAdmin.typeId toPledgeAdmin);
    ("ownerType", JStr (PledgeAdmin.type toPledgeAdmin));
    ("intendedProject", JStr (Pledge.intendedProject toPledge));
    ("pledgeId", JStr (toPledgeId transferInfo));
    ("commitTime",
      if gt0 (Pledge.commitTime toPledge)
      then JDate (default 0%Z (to_number (Pledge.commitTime toPledge)) * 1000)
      else JDate (ts transferInfo));
    ("status", JStr status)
  ] in
  (* intendedProject logic *)
  let mutation :=
    match intendedProject with
    | Some intendedProject =>
      assign mutation (object [
        ("intendedProjectId", PledgeAdmin.typeId intendedProject);
        ("intendedProjectType", JStr (PledgeAdmin.type intendedProject))])
    | None => mutation
    end in
  let mutation :=
    if bool_decide (intendedProject = None) && truthy (field donation "intendedProject")
    then assign (delete "intendedProject" mutation) (object [
           ("$unset", JObj [("intendedProject", JBool true);
                            ("intendedProjectId", JBool true);
                            ("intendedProjectType", JBool true)])])
    else mutation in
  (* delegate logic *)
  let mutation :=
    match delegate with
    | Some delegate =>
      assign mutation (object [
        ("delegate", PledgeAdmin.id delegate);
        ("delegateId", PledgeAdmin.typeId delegate)])
    | None => mutation
    end in
  (* withdraw logic *)
  let mutation :=
    if (bool_decide (delegate = None) || (Pledge.pledgeState toPledge =? "1")%string)
       && truthy (field donation "delegate")
    then assign mutation (object [
           ("$unset", JObj [("delegate", JBool true);
                            ("delegateId", JBool true);
                            ("delegateType", JBool true)])])
    else mutation in
  (if ((Pledge.pledgeState toPledge =? "1")%string
       || (Pledge.pledgeState toPledge =? "2")%string)
      && (PledgeAdmin.type toPledgeAdmin =? "milestone")%string
   then emit (milestones_patch (PledgeAdmin.typeId toPledgeAdmin) (object [
          ("status", JStr (if (Pledge.pledgeState toPledge =? "1")%string
                           then "Paying" else "Paid"));
          ("mined", JBool true)]))
   else mret tt);;
  mret mutation.

Definition with_toDonation (transferInfo : TransferInfo) (created : obj)
  : TransferInfo :=
  {| fromPledgeAdmin := fromPledgeAdmin transferInfo;
     toPledgeAdmin := toPledgeAdmin transferInfo;
     fromPledge := fromPledge transferInfo;
     toPledge := toPledge transferInfo;
     toPledgeId := toPledgeId transferInfo;
     delegate := delegate transferInfo;
     intendedProject := intendedProject transferInfo;
     donation := donation transferInfo;
     toDonation := Some created;
     amount := amount transferInfo;
     ts := ts transferInfo |}.

Definition trackDonationHistory (sv : Services) (transferInfo : TransferInfo)
  : M unit :=
  let fromPledgeAdmin := fromPledgeAdmin transferInfo in
  let toPledgeAdmin := toPledgeAdmin transferInfo in
  let fromPledge := fromPledge transferInfo in
  let toPledge := toPledge transferInfo in
  let delegate := delegate transferInfo in
  let donation := donation transferInfo in
  let toDonation := toDonation transferInfo in
  let isNewDonation :=
    bool_decide (toDonation = None)
    && (Pledge.oldPledge fromPledge =? "0")%string
    && (negb (PledgeAdmin.type toPledgeAdmin =? "giver")%string
        || (Pledge.nDelegates toPledge =? "1")%string)
    && (Pledge.intendedProject toPledge =? "0")%string in
  let isCommittedDelegation :=
    bool_decide (toDonation = None)
    && negb (Pledge.intendedProject fromPledge =? "0")%string
    && (Pledge.intendedProject fromPledge =? Pledge.owner toPledge)%string in
  let isCampaignToMilestone :=
    bool_decide (toDonation = None)
    && (PledgeAdmin.type fromPledgeAdmin =? "campaign")%string
    && (PledgeAdmin.type toPledgeAdmin =? "milestone")%string in
  let history := object [
    ("ownerId", PledgeAdmin.typeId toPledgeAdmin);
    ("ownerType", JStr (PledgeAdmin.type toPledgeAdmin));
    ("amount", JStr (amount transferInfo));
    ("txHash", field donation "txHash");
    ("donationId", field donation "_id");
    ("giverAddress", field donation "giverAddress")
  ] in
  let history :=
    match delegate with
    | Some delegate =>
      assign history (object [
        ("delegateType", JStr (PledgeAdmin.type delegate));
        ("delegateId", PledgeAdmin.typeId delegate)])
    | None => history
    end in
  (* new donations & committed delegations *)
  if (Pledge.pledgeState toPledge =? "0")%string
     && (isNewDonation || isCommittedDelegation || isCampaignToMilestone)
  then
    request (donationsHistory_create history) "donations/history.create"
            (history_created sv history);;
    mret tt
  else
    (* regular transfer *)
    match toDonation with
    | Some toDonation =>
      if (Pledge.pledgeState toPledge =? "0")%string then
        let history := assign history (object [
          ("donationId", field toDonation "_id");
          ("fromDonationId", field donation "_id");
          ("fromOwnerId", PledgeAdmin.typeId fromPledgeAdmin);
          ("fromOwnerType", JStr (PledgeAdmin.type fromPledgeAdmin))]) in
        request (donationsHistory_create history) "donations/history.create"
                (history_created sv history);;
        mret tt
      else mret tt
    | None => mret tt
    end.

(** In the split, [updateDonation()] runs first, and [toBN] may throw before
    any call went out; otherwise the patch and the create are both issued
    before either is awaited. *)
Definition _doTransfer (sv : Services) (transferInfo : TransferInfo) : M unit :=
  let fromPledge := fromPledge transferInfo in
  let fromPledgeAdmin := fromPledgeAdmin transferInfo in
  let donation := donation transferInfo in
  let amount := amount transferInfo in
  if is_str (field donation "amount") amount then
    (* this is a complete pledge transfer *)
    mutation ← createDonationMutation transferInfo;
    request (donations_patch (field donation "_id") mutation) "donations.patch"
            (patched sv (field donation "_id") mutation);;
    trackDonationHistory sv transferInfo
  else
    (* this is a split *)
    mutation ← createDonationMutation transferInfo;
    let newDonation :=
      delete "confirmations" (delete "requiredConfirmations" (delete "ownerEntity"
        (delete "giver" (delete "_id" (assign donation mutation))))) in
    (* Promise.all([updateDonation(), createDonation()]) *)
    match toBN (field donation "amount"), toBN (JStr amount) with
    | Some was, Some moved =>
      let a := toString (was - moved) in
      let status :=
        if (amount =? "0")%string then "paid"
        else getDonationStatus fromPledge fromPledgeAdmin
               (js_and (field donation "intendedProject")
                       (JBool (negb (is_str (field donation "intendedProject") "0"))))
               (JBool (truthy (field donation "delegate"))) in
      let update := object [("status", JStr status); ("amount", JStr a)] in
      emit (donations_patch (field donation "_id") update);;
      emit (donations_create newDonation);;
      read "donations.patch" (patched sv (field donation "_id") update);;
      created ← read "donations.create" (created sv newDonation);
      trackDonationHistory sv (with_toDonation transferInfo created)
    | _, _ => throw InvalidNumber
    end.

(** The reads [_transfer] gathers with [Promise.all] leave no mark, so they
    are taken one after the other, in the order of the array; when several
    of them are rejected, the rejection of the first in that order is the
    one that reaches [logger.error].  [getDonation] resolves with an element
    of [data] or is rejected, so the [if (!donation)] branch is never
    taken. *)
Definition _transfer (sv : Services) (from to amount : string) (ts : Z)
    (txHash : string) : M unit :=
  catch_logger_error (
    (* Promise.all([getPledge(from), getPledge(to)]) *)
    fromPledge ← read "getPledge" (getPledge sv from);
    toPledge ← read "getPledge" (getPledge sv to);
    fromPledgeAdmin ← read "pledgeAdmins.get"
                           (pledgeAdmins_get sv (Pledge.owner fromPledge));
    toPledgeAdmin ← read "pledgeAdmins.get"
                         (pledgeAdmins_get sv (Pledge.owner toPledge));
    donation ← getDonation sv from to amount ts txHash;
    delegate ←
      (if gt0 (Pledge.nDelegates toPledge) then
         idDelegate ← read "getPledgeDelegate"
                           (getPledgeDelegate sv to (Pledge.nDelegates toPledge));
         delegate ← read "pledgeAdmins.get" (pledgeAdmins_get sv idDelegate);
         mret (Some delegate)
       else mret None);
    intendedProject ←
      (if gt0 (Pledge.intendedProject toPledge) then
         intendedProject ← read "pledgeAdmins.get"
           (pledgeAdmins_get sv (Pledge.intendedProject toPledge));
         mret (Some intendedProject)
       else mret None);
    _doTransfer sv {|
      fromPledgeAdmin := fromPledgeAdmin;
      toPledgeAdmin := toPledgeAdmin;
      fromPledge := fromPledge;
      toPledge := toPledge;
      toPledgeId := to;
      delegate := delegate;
      intendedProject := intendedProject;
      donation := donation;
      toDonation := None;
      amount := amount;
      ts := ts |}).

(** [processEvent] of [transfer(event)], for an event with
    [returnValues = { from, to, amount }] and [transactionHash = txHash];
    [blockTimestamp] is how [this.getBlockTimestamp(event.blockNumber)]
    ends. *)
Definition processEvent (sv : Services) (from to amount txHash : string)
    (blockTimestamp : outcome Z) (retry : bool) : M unit :=
  ts ← (([], blockTimestamp) : M Z);
  if (from =? "0")%string then
    err ← errWrapper (newDonation sv to amount txHash retry);
    match err with
    | Some ReProcessEvent =>
      emit (setTimeout_processEvent true 5000)    (* return; *)
    | Some err => emit (logger_error err);; emit (queue_purge txHash)
    | None => emit (queue_purge txHash)
    end
  else
    _transfer sv from to amount ts txHash;;
    emit (queue_purge txHash).

End WithHelpers.

(** What the mint path writes: the fields [newDonation] puts together. *)
Definition mint_mutation (hp : string → jsval) (to amount : string) (pledge : Pledge.t)
    (giver : PledgeAdmin.t) : obj :=
  object [
    ("giverAddress", PledgeAdmin.admin_address giver);
    ("amount", JStr amount);
    ("pledgeId", JStr to);
    ("owner", JStr (Pledge.owner pledge));
    ("ownerId", PledgeAdmin.typeId giver);
    ("ownerType", JStr (PledgeAdmin.type giver));
    ("status", JStr "waiting");
    ("paymentStatus", hp (Pledge.pledgeState pledge))].

(** The promise settles: it is fulfilled or rejected. *)
Definition settles {A} (m : M A) : Prop := m.2 ≠ Forever.

(** What a call writes to the donation store, if it is one of those. *)
Definition written (c : call) : option obj :=
  match c with
  | donations_create data | donations_patch _ data => Some data
  | _ => None
  end.

Definition on_donations (c : call) : bool :=
  match c with
  | donations_create _ | donations_patch _ _ => true
  | _ => false
  end.

(** The status the destination pledge and its owning admin would give a
    donation: [getDonationStatus] on the pledge, its owner, whether the
    pledge has an intended project and whether it has a delegate. *)
Definition status_from_context (pledge : Pledge.t) (pledgeAdmin : PledgeAdmin.t)
  : string :=
  getDonationStatus pledge pledgeAdmin
    (JBool (gt0 (Pledge.intendedProject pledge)))
    (JBool (gt0 (Pledge.nDelegates pledge))).

(** The choice of the donation to mutate as a cascade in which any
    candidate carrying the event's txHash is taken. *)
Definition getDonation_any_txHash (candidates : list obj) (amount txHash : string)
  : option obj :=
  match candidates with
  | [donation] => Some donation
  | _ =>
    match filter (λ d, is_str (field d "txHash") txHash = true) candidates with
    | donation :: _ => Some donation
    | [] => head (filter (λ d, is_str (field d "amount") amount = true) candidates)
    end
  end.

(** *** Sample collaborators *)

Definition sample_pledgeState (s : string) : jsval :=
  JStr (if (s =? "1")%string then "Paying"
        else if (s =? "2")%string then "Paid" else "Pledged").

Definition sample_pledge (owner state : string) : Pledge.t :=
  {| Pledge.owner := owner; Pledge.nDelegates := "0";
     Pledge.intendedProject := "0"; Pledge.commitTime := "0";
     Pledge.oldPledge := "0"; Pledge.pledgeState := state |}.

Definition sample_admin (id type : string) : PledgeAdmin.t :=
  {| PledgeAdmin.id := JStr id; PledgeAdmin.type := type;
     PledgeAdmin.typeId := JStr ("id-" +:+ id);
     PledgeAdmin.admin_address := JStr ("0x" +:+ id) |}.

Definition sample_donation (_id pledgeId amount txHash : string) : obj :=
  object [("_id", JStr _id); ("pledgeId", JStr pledgeId);
          ("amount", JStr amount); ("txHash", JStr txHash)].

(** Pledge 1 belongs to giver 10, pledge 2 to campaign 20 and pledge 3, in
    state Paying, to giver 10; the stores accept every write. *)
Definition sample_services (donations : list obj) : Services :=
  {| getPledge := λ id,
       if (id =? "1")%string then Some (sample_pledge "10" "0")
       else if (id =? "2")%string then Some (sample_pledge "20" "0")
       else if (id =? "3")%string then Some (sample_pledge "10" "1")
       else None;
     getPledgeDelegate := λ _ _, None;
     pledgeAdmins_get := λ id,
       if (id =? "10")%string then Some (sample_admin "10" "giver")
       else if (id =? "20")%string then Some (sample_admin "20" "campaign")
       else None;
     donations := Some donations;
     created := λ data, Some (<["_id" := JStr "new"]> data);
     patched := λ _ data, Some data;
     history_created := λ data, Some data |}.

(** Three donations of pledge 1: the first two carry txHash 0xaa, the third
    one has the amount 9. *)
Definition sample_candidates : list obj :=
  [sample_donation "d1" "1" "5" "0xaa";
   sample_donation "d2" "1" "7" "0xaa";
   sample_donation "d3" "1" "9" "0xbb"].

(** 40 of the 100 of donation d1 move from pledge 1 to pledge 2. *)
Definition sample_split : TransferInfo :=
  {| fromPledgeAdmin := sample_admin "10" "giver";
     toPledgeAdmin := sample_admin "20" "campaign";
     fromPledge := sample_pledge "10" "0";
     toPledge := sample_pledge "20" "0";
     toPledgeId := "2";
     delegate := None;
     intendedProject := None;
     donation := sample_donation "d1" "1" "100" "0xaa";
     toDonation := None;
     amount := "40";
     ts := 5 |}.

(** A transfer into a Paying pledge that has a last-chain delegate, for a
    donation that already had one. *)
Definition sample_paying_transfer : TransferInfo :=
  {| fromPledgeAdmin := sample_admin "10" "giver";
     toPledgeAdmin := sample_admin "20" "campaign";
     fromPledge := sample_pledge "10" "0";
     toPledge := sample_pledge "20" "1";
     toPledgeId := "2";
     delegate := Some (sample_admin "30" "dac");
     intendedProject := None;
     donation := <["delegate" := JStr "31"]> (sample_donation "d1" "1" "100" "0xaa");
     toDonation := None;
     amount := "100";
     ts := 5 |}.

(** Which collaborator a call goes to. *)
Definition on_history (c : call) : bool :=
  match c with
  | donationsHistory_create _ => true
  | _ => false
  end.

Definition on_milestones (c : call) : bool :=
  match c with
  | milestones_patch _ _ => true
  | _ => false
  end.

Definition on_queue (c : call) : bool :=
  match c with
  | queue_purge _ | setTimeout_processEvent _ _ => true
  | _ => false
  end.

Definition on_logger (c : call) : bool :=
  match c with
  | logger_error _ => true
  | _ => false
  end.

(** Nothing of donation d1 moves from pledge 1 to pledge 2. *)
Definition sample_zero : TransferInfo :=
  {| fromPledgeAdmin := sample_admin "10" "giver";
     toPledgeAdmin := sample_admin "20" "campaign";
     fromPledge := sample_pledge "10" "0";
     toPledge := sample_pledge "20" "0";
     toPledgeId := "2";
     delegate := None;
     intendedProject := None;
     donation := sample_donation "d1" "1" "100" "0xaa";
     toDonation := None;
     amount := "0";
     ts := 5 |}.

(** A donation that had an intended project and a delegate comes back to a
    pledge of giver 10 that has neither. *)
Definition sample_both_dropped : TransferInfo :=
  {| fromPledgeAdmin := sample_admin "10" "giver";
     toPledgeAdmin := sample_admin "10" "giver";
     fromPledge := sample_pledge "10" "0";
     toPledge := sample_pledge "10" "0";
     toPledgeId := "1";
     delegate := None;
     intendedProject := None;
     donation := <["intendedProject" := JStr "20"]> (<["delegate" := JStr "31"]>
                   (sample_donation "d1" "4" "100" "0xaa"));
     toDonation := None;
     amount := "100";
     ts := 5 |}.

(** The whole of donation d1 moves from pledge 1 to pledge 2. *)
Definition sample_complete : TransferInfo :=
  {| fromPledgeAdmin := sample_admin "10" "giver";
     toPledgeAdmin := sample_admin "20" "campaign";
     fromPledge := sample_pledge "10" "0";
     toPledge := sample_pledge "20" "0";
     toPledgeId := "2";
     delegate := None;
     intendedProject := None;
     donation := sample_donation "d1" "1" "100" "0xaa";
     toDonation := None;
     amount := "100";
     ts := 5 |}.

End Pledges.

(** ** Facts about the block-timestamp cache *)

Module BlockTimestampsFacts.
Import BlockTimestamps.

Lemma lookup_foldl_delete (keys : list N) (m : gmap N Z) (k : N) :
  foldl (λ m key, delete key m) m keys !! k
  = if decide (k ∈ keys) then None else m !! k.
Proof.
  revert m. induction keys as [|a keys IH]; intros m; cbn [foldl].
  - rewrite decide_False; [done | apply not_elem_of_nil].
  - rewrite IH. destruct (decide (k ∈ a :: keys)) as [Hin|Hnin].
    + apply elem_of_cons in Hin as [->|Hin].
      * destruct (decide (a ∈ keys)); [done | apply lookup_delete_eq].
      * by rewrite decide_True.
    + apply not_elem_of_cons in Hnin as [Hne Hnin].
      rewrite decide_False by done. by apply lookup_delete_ne.
Qed.

Lemma elem_of_sorted_keys (m : gmap N Z) (k : N) :
  k ∈ sorted_keys m ↔ is_Some (m !! k).
Proof.
  unfold sorted_keys. rewrite merge_sort_Permutation.
  rewrite <- elem_of_dom. rewrite dom_alt. set_solver.
Qed.

Lemma evict_overflow (m : gmap N Z) : (50 < size m)%nat → evict m = ∅.
Proof.
  intros Hlt. unfold evict. rewrite decide_True by done.
  apply map_eq. intros k. rewrite lookup_foldl_delete, lookup_empty.
  case_decide as Hk; [done|].
  destruct (m !! k) eqn:E; [|done].
  exfalso. apply Hk, elem_of_sorted_keys. eauto.
Qed.

Lemma evict_size (m : gmap N Z) : (size (evict m) ≤ 50)%nat.
Proof.
  destruct (decide (50 < size m)%nat) as [H|H].
  - rewrite evict_overflow by done. rewrite map_size_empty. lia.
  - unfold evict. rewrite decide_False by done. lia.
Qed.

Lemma evict_lookup_None (m : gmap N Z) (k : N) :
  m !! k = None → evict m !! k = None.
Proof.
  intros Hk. unfold evict. destruct (decide (50 < size m)); [|done].
  rewrite lookup_foldl_delete. by destruct (decide (k ∈ sorted_keys m)).
Qed.

Lemma elem_of_answered (b b' : N) (l : list N) :
  b' ∈ answered b l → b' ∈ l.
Proof.
  induction l as [|a l IH]; cbn [answered]; [done|].
  destruct (decide (a = b)) as [->|Hab]; rewrite ?elem_of_cons.
  - intros Hin. by right.
  - intros [->|Hin]; [by left | right; by apply IH].
Qed.

Lemma answered_other (b b' : N) (l : list N) :
  b' ≠ b → b' ∈ l → b' ∈ answered b l.
Proof.
  intros Hne. induction l as [|a l IH]; cbn [answered]; [done|].
  destruct (decide (a = b)) as [->|Hab]; rewrite ?elem_of_cons.
  - by intros [?|Hin].
  - intros [->|Hin]; [by left | right; by apply IH].
Qed.

Lemma answered_NoDup (b : N) (l : list N) :
  NoDup l → NoDup (answered b l) ∧ b ∉ answered b l.
Proof.
  induction 1 as [|a l Ha Hl [IH1 IH2]]; cbn [answered].
  - split; [constructor | set_solver].
  - destruct (decide (a = b)) as [->|Hne]; [done|].
    split.
    + constructor; [|done]. intros Hin. apply Ha. by eapply elem_of_answered.
    + by apply not_elem_of_cons.
Qed.

Lemma inv_init : inv init.
Proof.
  split.
  - constructor.
  - intros b Hb. cbn in Hb. set_solver.
  - intros p b (ls & Hls & _). done.
  - intros p b1 b2 (ls & Hls & _). done.
  - intros p b (ls & Hls & _). done.
  - intros p Hp. cbn in Hp. set_solver.
Qed.

Lemma listening_attach (p : nat) (b b0 : N) (ls : list nat) (st st' : state) :
  fetchingBlocks st !! b = Some ls →
  fetchingBlocks st' = <[b := ls ++ [next_promise st]]> (fetchingBlocks st) →
  listening p b0 st' →
  listening p b0 st ∨ (b0 = b ∧ p = next_promise st).
Proof.
  intros Hls Hfb (ls' & Hls' & Hp). rewrite Hfb in Hls'.
  destruct (decide (b = b0)) as [->|Hne].
  - rewrite lookup_insert_eq in Hls'. injection Hls' as <-.
    apply elem_of_app in Hp as [Hp|Hp].
    + left. by exists ls.
    + right. split; [done|]. by apply list_elem_of_singleton in Hp.
  - rewrite lookup_insert_ne in Hls' by done. left. by exists ls'.
Qed.

Lemma inv_getBlockTimestamp (b : N) (st : state) :
  inv st → inv (getBlockTimestamp b st).1.
Proof.
  intros I. unfold getBlockTimestamp.
  destruct (blockTimes st !! b) as [ts|] eqn:Hbt; [done|].
  destruct (fetchingBlocks st !! b) as [ls|] eqn:Hfb; cbn [fst].
  - (* a listener is attached *)
    assert (Hcase : ∀ p b0,
      listening p b0 {| blockTimes := blockTimes st;
                        fetchingBlocks := <[b := ls ++ [next_promise st]]> (fetchingBlocks st);
                        outstanding := outstanding st; resolved := resolved st;
                        next_promise := S (next_promise st) |} →
      listening p b0 st ∨ (b0 = b ∧ p = next_promise st)).
    { intros p b0 H. eapply (listening_attach p b b0 ls st); [exact Hfb | | exact H]. done. }
    split; cbn [outstanding blockTimes fetchingBlocks resolved next_promise].
    + apply I.
    + intros b0 Hb0. destruct (inv_marked st I b0 Hb0) as [Hm Hc].
      split; [|done]. rewrite lookup_insert. case_decide; [by eexists | done].
    + intros p b0 H. destruct (Hcase p b0 H) as [H'|[_ ->]]; [|lia].
      pose proof (inv_fresh st I p b0 H'). lia.
    + intros p b1 b2 H1 H2.
      destruct (Hcase p b1 H1) as [H1'|[Hb1 Hp1]], (Hcase p b2 H2) as [H2'|[Hb2 Hp2]].
      * by eapply inv_owner.
      * pose proof (inv_fresh st I _ _ H1'). lia.
      * pose proof (inv_fresh st I _ _ H2'). lia.
      * congruence.
    + intros p b0 H. destruct (Hcase p b0 H) as [H'|[_ ->]].
      * by eapply inv_pending.
      * intros Hin. pose proof (inv_settled st I _ Hin). lia.
    + intros p Hp. pose proof (inv_settled st I _ Hp). lia.
  - (* a fetch is started *)
    assert (Hcase : ∀ p b0,
      listening p b0 {| blockTimes := blockTimes st;
                        fetchingBlocks := <[b := []]> (fetchingBlocks st);
                        outstanding := b :: outstanding st; resolved := resolved st;
                        next_promise := next_promise st |} →
      listening p b0 st).
    { intros p b0 (ls & Hls & Hp). cbn in Hls.
      destruct (decide (b = b0)) as [->|Hne].
      - rewrite lookup_insert_eq in Hls. injection Hls as <-. set_solver.
      - rewrite lookup_insert_ne in Hls by done. by exists ls. }
    split; cbn [outstanding blockTimes fetchingBlocks resolved next_promise].
    + constructor; [|apply I]. intros Hin.
      destruct (inv_marked st I b Hin) as [[x Hx] _]. congruence.
    + intros b0 Hb0. apply elem_of_cons in Hb0 as [->|Hb0].
      * rewrite lookup_insert_eq. split; [by eexists | done].
      * destruct (inv_marked st I b0 Hb0) as [Hm Hc]. split; [|done].
        rewrite lookup_insert. case_decide; [by eexists | done].
    + intros p b0 H. by eapply inv_fresh, Hcase.
    + intros p b1 b2 H1 H2. eapply inv_owner; eauto.
    + intros p b0 H. by eapply inv_pending, Hcase.
    + apply I.
Qed.

Lemma inv_set_outstanding (b : N) (st : state) :
  inv st → inv (set_outstanding (answered b (outstanding st)) st).
Proof.
  intros I.
  split; cbn [set_outstanding outstanding blockTimes fetchingBlocks resolved
              next_promise].
  - by apply answered_NoDup, I.
  - intros b0 Hb0. apply (inv_marked st I). by eapply elem_of_answered.
  - intros p b0 (ls & Hls & Hp). apply (inv_fresh st I p b0). by exists ls.
  - intros p b1 b2 (l1 & Hl1 & Hp1) (l2 & Hl2 & Hp2).
    apply (inv_owner st I p b1 b2); eexists; eauto.
  - intros p b0 (ls & Hls & Hp). apply (inv_pending st I p b0). by exists ls.
  - apply I.
Qed.

Lemma inv_on_block (b : N) (block : Block) (st : state) :
  inv st → b ∈ outstanding st →
  inv (on_block b block (set_outstanding (answered b (outstanding st)) st)).1.
Proof.
  intros I Hb. destruct (inv_marked st I b Hb) as [[ls Hls] Hbt].
  unfold on_block. cbn [set_outstanding fetchingBlocks]. rewrite Hls. cbn [fst].
  destruct (answered_NoDup b (outstanding st) (inv_nodup st I)) as [Hnd Hnb].
  assert (Hcase : ∀ p b0 st', fetchingBlocks st' = delete b (fetchingBlocks st) →
            listening p b0 st' → b0 ≠ b ∧ listening p b0 st).
  { intros p b0 st' Hfb (ls' & Hls' & Hp). rewrite Hfb in Hls'.
    destruct (decide (b = b0)) as [->|Hne].
    - by rewrite lookup_delete_eq in Hls'.
    - rewrite lookup_delete_ne in Hls' by done. split; [done|]. by exists ls'. }
  split; cbn [set_outstanding outstanding blockTimes fetchingBlocks resolved next_promise].
  - done.
  - intros b0 Hb0. assert (b0 ≠ b) by (intros ->; done).
    apply elem_of_answered in Hb0.
    destruct (inv_marked st I b0 Hb0) as [Hm Hc]. split.
    + by rewrite lookup_delete_ne.
    + apply evict_lookup_None. by rewrite lookup_insert_ne.
  - intros p b0 H. eapply (inv_fresh st I p b0), Hcase; [|exact H]. done.
  - intros p b1 b2 H1 H2.
    eapply Hcase in H1 as [_ H1]; [|done]. eapply Hcase in H2 as [_ H2]; [|done].
    by eapply inv_owner.
  - intros p b0 H. eapply Hcase in H as [Hne H]; [|done].
    rewrite fmap_app, elem_of_app. intros [Hin|Hin].
    + by eapply inv_pending.
    + rewrite <- list_fmap_compose in Hin. cbn in Hin. rewrite list_fmap_id in Hin.
      apply Hne. eapply (inv_owner st I p); [done|]. by exists ls.
  - intros p. rewrite fmap_app, elem_of_app. intros [Hin|Hin].
    + by apply (inv_settled st I).
    + rewrite <- list_fmap_compose in Hin. cbn in Hin. rewrite list_fmap_id in Hin.
      apply (inv_fresh st I p b). by exists ls.
Qed.

Lemma inv_exec (ev : event) (st st' : state) :
  inv st → exec ev st = Some st' → inv st'.
Proof.
  intros I. destruct ev as [b|b block|b]; cbn [exec].
  - intros [= <-]. by apply inv_getBlockTimestamp.
  - destruct (decide (b ∈ outstanding st)); [|done].
    intros [= <-]. by apply inv_on_block.
  - destruct (decide (b ∈ outstanding st)); [|done].
    intros [= <-]. by apply inv_set_outstanding.
Qed.

Lemma inv_run (evs : list event) (st st' : state) :
  inv st → run evs st = Some st' → inv st'.
Proof.
  revert st. induction evs as [|ev evs IH]; intros st I; cbn [run].
  - by intros [= <-].
  - destruct (exec ev st) as [st1|] eqn:E; [|done].
    apply IH. by eapply inv_exec.
Qed.

Lemma inv_reachable (st : state) : reachable st → inv st.
Proof. intros [evs Hevs]. eapply inv_run; [apply inv_init | done]. Qed.


Lemma listening_exec (p : nat) (b : N) (ev : event) (st st' : state) :
  listening p b st → (∀ block, ev ≠ GetBlockResolves b block) →
  exec ev st = Some st' → listening p b st'.
Proof.
  intros (ls & Hls & Hp) Hev. destruct ev as [b'|b' block|b']; cbn [exec].
  - intros [= <-]. unfold getBlockTimestamp.
    destruct (blockTimes st !! b') as [ts|] eqn:Hbt'; [by exists ls|].
    destruct (fetchingBlocks st !! b') as [ls'|] eqn:Hfb'; cbn [fst].
    + destruct (decide (b' = b)) as [->|Hne].
      * exists (ls' ++ [next_promise st]). cbn. rewrite lookup_insert_eq.
        split; [done|]. assert (ls' = ls) as -> by congruence. set_solver.
      * exists ls. cbn. by rewrite lookup_insert_ne.
    + assert (b' ≠ b) by congruence.
      exists ls. cbn. by rewrite lookup_insert_ne.
  - destruct (decide (b' ∈ outstanding st)) as [Hin|]; [|done].
    intros [= <-]. assert (b' ≠ b) by (intros ->; by eapply Hev).
    unfold on_block. cbn [set_outstanding fetchingBlocks blockTimes].
    destruct (fetchingBlocks st !! b'); cbn [fst]; exists ls; cbn.
    + by rewrite lookup_delete_ne.
    + done.
  - destruct (decide (b' ∈ outstanding st)) as [Hin|]; [|done].
    intros [= <-]. by exists ls.
Qed.




Lemma listening_run_unanswered (p : nat) (b : N) (evs : list event) (st st' : state) :
  forallb (λ ev, negb (answers b ev)) evs = true →
  listening p b st → run evs st = Some st' → listening p b st'.
Proof.
  revert st. induction evs as [|ev evs IH]; intros st Hevs Hl; cbn [run].
  - by intros [= <-].
  - cbn [forallb] in Hevs. apply andb_true_iff in Hevs as [Hev Hevs].
    destruct (exec ev st) as [st1|] eqn:E; [|done].
    apply IH; [done|]. eapply listening_exec; [done | | done].
    intros block ->. cbn in Hev. by rewrite bool_decide_eq_true_2 in Hev.
Qed.

Lemma run_app (evs1 evs2 : list event) (st : state) :
  run (evs1 ++ evs2) st = run evs1 st ≫= run evs2.
Proof.
  revert st. induction evs1 as [|ev evs1 IH]; intros st; cbn [run app]; [done|].
  destruct (exec ev st); [apply IH | done].
Qed.

Lemma getBlockTimestamp_attach (b : N) (ls : list nat) (st : state) :
  blockTimes st !! b = None → fetchingBlocks st !! b = Some ls →
  (getBlockTimestamp b st).2 = Listener (next_promise st) ∧
  outstanding (getBlockTimestamp b st).1 = outstanding st ∧
  listening (next_promise st) b (getBlockTimestamp b st).1.
Proof.
  intros Hbt Hfb. unfold getBlockTimestamp. rewrite Hbt, Hfb. cbn.
  split_and!; [done..|]. exists (ls ++ [next_promise st]). cbn.
  rewrite lookup_insert_eq. split; [done | set_solver].
Qed.

Lemma on_block_resolves_listeners (p : nat) (b : N) (block : Block) (st st' : state) :
  listening p b st → exec (GetBlockResolves b block) st = Some st' →
  (on_block b block (set_outstanding (answered b (outstanding st)) st)).2
    = Some (new_Date block)
  ∧ (p, new_Date block) ∈ resolved st'.
Proof.
  intros (ls & Hls & Hp). cbn [exec].
  destruct (decide (b ∈ outstanding st)); [|done].
  intros [= <-]. unfold on_block. cbn [set_outstanding fetchingBlocks].
  rewrite Hls. cbn. split; [done|].
  apply elem_of_app. right. apply list_elem_of_fmap. by exists p.
Qed.

(** C8: whatever the cache held before, once the [.then] callback of a fetch
    has stored the new timestamp (and run the eviction step) the cache holds
    at most 50 entries. *)
Theorem cache_at_most_50_after_insertion (blockNumber : N) (block : Block) (st : state) :
  (size (blockTimes (on_block blockNumber block st).1) ≤ 50)%nat.
Proof.
  unfold on_block.
  destruct (fetchingBlocks st !! blockNumber); cbn; apply evict_size.
Qed.

(** C2: blocks 1..50 are fetched one after the other, which fills the cache
    with 50 entries, and then block 51 is fetched.  The insertion of block
    51 overflows the cache, and the eviction step leaves it empty: neither
    the 50 highest block numbers nor the entry just inserted are kept. *)
Theorem eviction_empties_the_cache :
  ∃ st st',
    run (fetch_upto 50) init = Some st ∧ size (blockTimes st) = 50%nat ∧
    run [Call 51%N; GetBlockResolves 51%N {| timestamp := 51 |}] st = Some st' ∧
    blockTimes st' = ∅ ∧ blockTimes st' !! 51%N = None ∧
    sorted_keys (<[51%N := 51000%Z]> (blockTimes st)) !! 0%nat = Some 51%N.
Proof.
  eexists _, _. split; [vm_compute; reflexivity|].
  split; [vm_compute; reflexivity|].
  split; [vm_compute; reflexivity|].
  split_and!; vm_compute; reflexivity.
Qed.

(** C4: in every state the cache can reach no block number has two
    [getBlock] requests outstanding; and when [getBlockTimestamp] is called
    for a block whose request is outstanding, no request is issued, the
    caller gets a listener promise, and when web3 answers the outstanding
    request with a block the listener is resolved with the very timestamp
    the fetch itself yields. *)
Theorem concurrent_calls_share_one_fetch (b : N) (evs : list event) (st : state) :
  run evs init = Some st →
  NoDup (outstanding st) ∧
  (b ∈ outstanding st →
   ∃ p, (getBlockTimestamp b st).2 = Listener p ∧
        outstanding (getBlockTimestamp b st).1 = outstanding st ∧
        ∀ evs' st' block st'',
          forallb (λ ev, negb (answers b ev)) evs' = true →
          run evs' (getBlockTimestamp b st).1 = Some st' →
          exec (GetBlockResolves b block) st' = Some st'' →
          (on_block b block (set_outstanding (answered b (outstanding st')) st')).2
            = Some (new_Date block)
          ∧ (p, new_Date block) ∈ resolved st'').
Proof.
  intros Hrun. assert (I : inv st) by (apply inv_reachable; by exists evs).
  split; [apply I|]. intros Hb.
  destruct (inv_marked st I b Hb) as [[ls Hls] Hbt].
  destruct (getBlockTimestamp_attach b ls st Hbt Hls) as (Hp & Hout & Hl).
  exists (next_promise st). split_and!; [done..|].
  intros evs' st' block st'' Hevs' Hrun' Hex.
  eapply on_block_resolves_listeners; [|done].
  by eapply listening_run_unanswered.
Qed.

Lemma concurrent_calls_share_one_fetch_witness :
  ∃ st, run [Call 7%N] init = Some st ∧ 7%N ∈ outstanding st ∧
    NoDup (outstanding st) ∧
    ∃ p, (getBlockTimestamp 7%N st).2 = Listener p ∧
         outstanding (getBlockTimestamp 7%N st).1 = outstanding st ∧
         ∀ evs' st' block st'',
           forallb (λ ev, negb (answers 7%N ev)) evs' = true →
           run evs' (getBlockTimestamp 7%N st).1 = Some st' →
           exec (GetBlockResolves 7%N block) st' = Some st'' →
           (on_block 7%N block (set_outstanding (answered 7%N (outstanding st')) st')).2
             = Some (new_Date block)
           ∧ (p, new_Date block) ∈ resolved st''.
Proof.
  eexists. split; [reflexivity|]. split; [cbn; set_solver|].
  destruct (concurrent_calls_share_one_fetch 7%N [Call 7%N] _ eq_refl) as [Hnd H].
  split; [exact Hnd|]. apply H. cbn. set_solver.
Defined.



End BlockTimestampsFacts.


(** ** Facts about the Transfer-event handler *)

Module PledgesFacts.
Import Pledges.

Lemma bind_calls {A B} (m : M A) (f : A → M B) :
  (m ≫= f).1 = m.1 ++ match m.2 with Fulfilled a => (f a).1 | _ => [] end.
Proof.
  destruct m as [calls [a|e|]]; unfold mbind, M_bind, bind; cbn.
  - by destruct (f a).
  - by rewrite app_nil_r.
  - by rewrite app_nil_r.
Qed.

Lemma bind_result {A B} (m : M A) (f : A → M B) :
  (m ≫= f).2 = match m.2 with
               | Fulfilled a => (f a).2
               | RejectedWith e => RejectedWith e
               | Forever => Forever
               end.
Proof.
  destruct m as [calls [a|e|]]; unfold mbind, M_bind, bind; cbn; [|done..].
  by destruct (f a).
Qed.

Lemma ret_bind {A B} (a : A) (f : A → M B) : (ret a ≫= f) = f a.
Proof. unfold mbind, M_bind, bind, ret. by destruct (f a). Qed.

Lemma createDonationMutation_calls (hp : string → jsval) (transferInfo : TransferInfo) :
  filter (λ c, on_donations c = true) (createDonationMutation hp transferInfo).1 = []
  ∧ ∃ mutation, (createDonationMutation hp transferInfo).2 = Fulfilled mutation.
Proof.
  unfold createDonationMutation. rewrite bind_calls.
  match goal with |- context [if ?b then emit ?c else mret tt] => destruct b end;
    cbn; eauto.
Qed.

(** C10: when the destination pledge is Paying, has a last-chain delegate,
    and the matched donation already had a delegate, the mutation sets
    [delegate] and [delegateId] to the new delegate and at the same time
    carries a [$unset] directive for [delegate], [delegateId] and
    [delegateType]. *)
Theorem paying_with_delegate_sets_and_unsets (hp : string → jsval)
    (transferInfo : TransferInfo)
    (newDelegate : PledgeAdmin.t) :
  Pledge.pledgeState (toPledge transferInfo) = "1" →
  delegate transferInfo = Some newDelegate →
  truthy (field (donation transferInfo) "delegate") = true →
  ∃ mutation,
    (createDonationMutation hp transferInfo).2 = Fulfilled mutation ∧
    mutation !! "delegate" = Some (PledgeAdmin.id newDelegate) ∧
    mutation !! "delegateId" = Some (PledgeAdmin.typeId newDelegate) ∧
    mutation !! "$unset" = Some (JObj [("delegate", JBool true);
                                       ("delegateId", JBool true);
                                       ("delegateType", JBool true)]).
Proof.
  intros Hstate Hdelegate Hhad.
  unfold createDonationMutation. rewrite Hstate, Hdelegate, Hhad. cbn.
  destruct (PledgeAdmin.type (toPledgeAdmin transferInfo) =? "milestone")%string;
    cbn; eexists; (split; [reflexivity|]);
    destruct (intendedProject transferInfo);
    destruct (truthy (field (donation transferInfo) "intendedProject"));
    cbn; split_and!; reflexivity.
Qed.

Lemma paying_with_delegate_sets_and_unsets_witness :
  ∃ mutation,
    (createDonationMutation sample_pledgeState sample_paying_transfer).2
      = Fulfilled mutation ∧
    mutation !! "delegate" = Some (JStr "30") ∧
    mutation !! "delegateId" = Some (JStr "id-30") ∧
    mutation !! "$unset" = Some (JObj [("delegate", JBool true);
                                       ("delegateId", JBool true);
                                       ("delegateType", JBool true)]).
Proof.
  apply (paying_with_delegate_sets_and_unsets sample_pledgeState
           sample_paying_transfer (sample_admin "30" "dac")); reflexivity.
Defined.

Lemma newDonation_calls (hp : string → jsval) (sv : Services)
    (pledgeId amount txHash : string)
    (retry : bool) (c : call) :
  c ∈ (newDonation hp sv pledgeId amount txHash retry).1 →
  ∃ data, written c = Some data ∧ data !! "status" = Some (JStr "waiting").
Proof.
  unfold newDonation.
  destruct (getPledge sv pledgeId) as [pledge|]; cbn; [|set_solver].
  destruct (pledgeAdmins_get sv (Pledge.owner pledge)) as [giver|]; cbn; [|set_solver].
  unfold find. destruct (donations sv) as [data|]; cbn; [|set_solver].
  destruct (head _) as [donation|].
  - cbn. destruct (patched sv _ _); cbn; intros ->%list_elem_of_singleton;
      cbn; eauto.
  - destruct retry; cbn; [|set_solver].
    destruct (created sv _); cbn; intros ->%list_elem_of_singleton; cbn; eauto.
Qed.

(** C1, as the code has it: whatever the destination pledge and its owner
    look like, the record a mint creates or patches gets the status
    ['waiting']. *)
Theorem mint_status_is_waiting (hp : string → jsval) (sv : Services)
    (pledgeId amount txHash : string)
    (retry : bool) (c : call) (data : obj) :
  c ∈ (newDonation hp sv pledgeId amount txHash retry).1 →
  written c = Some data →
  field data "status" = JStr "waiting".
Proof.
  intros Hc Hdata. destruct (newDonation_calls _ _ _ _ _ _ _ Hc) as (data' & Hw & Hs).
  assert (data' = data) as -> by congruence.
  unfold field. by rewrite Hs.
Qed.

Lemma mint_status_is_waiting_witness :
  ∃ c data,
    c ∈ (newDonation sample_pledgeState (sample_services []) "3" "100" "0xaa" true).1 ∧
    written c = Some data ∧ field data "status" = JStr "waiting".
Proof.
  assert (∃ data,
    (newDonation sample_pledgeState (sample_services []) "3" "100" "0xaa" true).1
    = [donations_create data]) as [data Hcalls] by (eexists; reflexivity).
  assert (Hin : donations_create data
    ∈ (newDonation sample_pledgeState (sample_services []) "3" "100" "0xaa" true).1)
    by (rewrite Hcalls; apply list_elem_of_here).
  exists (donations_create data), data. split; [exact Hin|]. split; [reflexivity|].
  exact (mint_status_is_waiting _ _ _ _ _ _ _ _ Hin eq_refl).
Defined.

(** C1, as stated, fails: the mint into pledge 3, which is Paying, creates a
    donation whose status is ['waiting'], while the destination context
    gives ['paying']. *)
Lemma mint_status_ignores_the_context :
  ∃ data,
    (processEvent sample_pledgeState (sample_services []) "0" "3" "100" "0xaa"
       (Fulfilled 5%Z) true).1 = [donations_create data; queue_purge "0xaa"] ∧
    getPledge (sample_services []) "3" = Some (sample_pledge "10" "1") ∧
    pledgeAdmins_get (sample_services []) "10" = Some (sample_admin "10" "giver") ∧
    status_from_context (sample_pledge "10" "1") (sample_admin "10" "giver") = "paying" ∧
    field data "status" = JStr "waiting" ∧
    field data "status"
      ≠ JStr (status_from_context (sample_pledge "10" "1") (sample_admin "10" "giver")).
Proof.
  eexists. split; [reflexivity|]. split_and!; try reflexivity. discriminate.
Qed.

Lemma getDonation_no_calls (sv : Services) (from to amount : string) (ts : Z)
    (txHash : string) :
  (getDonation sv from to amount ts txHash).1 = [].
Proof.
  unfold getDonation, find. destruct (donations sv) as [data|]; cbn; [|done].
  repeat (match goal with |- context [match ?l with [] => _ | _ :: _ => _ end] =>
            destruct l end; cbn; try done).
Qed.

Lemma transfer_logs_getDonation_error (hp : string → jsval) (sv : Services)
    (from to amount : string)
    (ts : Z) (txHash : string) (e : error)
    (fromPledge toPledge : Pledge.t) (fromPledgeAdmin toPledgeAdmin : PledgeAdmin.t) :
  (getDonation sv from to amount ts txHash).2 = RejectedWith e →
  getPledge sv from = Some fromPledge → getPledge sv to = Some toPledge →
  pledgeAdmins_get sv (Pledge.owner fromPledge) = Some fromPledgeAdmin →
  pledgeAdmins_get sv (Pledge.owner toPledge) = Some toPledgeAdmin →
  _transfer hp sv from to amount ts txHash = ([logger_error e], Fulfilled tt).
Proof.
  intros He Hfrom Hto Hfa Hta. unfold _transfer.
  rewrite Hfrom, Hto. cbn. rewrite Hfa, Hta. cbn.
  pose proof (getDonation_no_calls sv from to amount ts txHash) as Hcalls.
  destruct (getDonation sv from to amount ts txHash) as [calls r].
  cbn in He, Hcalls. subst. reflexivity.
Qed.

(** C7, as the code has it: when the donation store can be read, among the
    donations whose [pledgeId] is the source pledge a single candidate is
    taken; otherwise the candidate carrying the event's txHash when exactly
    one does; otherwise the first candidate with the transferred amount;
    otherwise [getDonation] is rejected, with an error holding the whole
    context when there is a candidate at all.  When every other read of
    [_transfer] succeeds (both pledges, their two owners and, where the
    destination pledge has delegates or an intended project, the lookup of
    the last delegate and of the intended project), so that the rejection
    of [getDonation] is the only one, [_transfer] hands that error to
    [logger.error] and touches no store. *)
Theorem getDonation_cascade (sv : Services) (from to amount : string) (ts : Z)
    (txHash : string) (data : list obj) :
  donations sv = Some data →
  let candidates := filter (λ d, is_str (field d "pledgeId") from = true) data in
  let byTxHash := filter (λ d, is_str (field d "txHash") txHash = true) candidates in
  let byAmount := filter (λ d, is_str (field d "amount") amount = true) candidates in
  let result := (getDonation sv from to amount ts txHash).2 in
  (∀ d, candidates = [d] → result = Fulfilled d) ∧
  (length candidates ≠ 1 → ∀ d, byTxHash = [d] → result = Fulfilled d) ∧
  (length candidates ≠ 1 → length byTxHash ≠ 1 →
   ∀ d, head byAmount = Some d → result = Fulfilled d) ∧
  (length candidates ≠ 1 → length byTxHash ≠ 1 → byAmount = [] →
   ∃ e, result = RejectedWith e ∧
        (candidates ≠ [] →
         e = UnableToDetermine from to amount ts txHash candidates) ∧
        ∀ hp fromPledge toPledge fromPledgeAdmin toPledgeAdmin,
          getPledge sv from = Some fromPledge → getPledge sv to = Some toPledge →
          pledgeAdmins_get sv (Pledge.owner fromPledge) = Some fromPledgeAdmin →
          pledgeAdmins_get sv (Pledge.owner toPledge) = Some toPledgeAdmin →
          (gt0 (Pledge.nDelegates toPledge) = true →
           ∃ idDelegate delegate,
             getPledgeDelegate sv to (Pledge.nDelegates toPledge) = Some idDelegate ∧
             pledgeAdmins_get sv idDelegate = Some delegate) →
          (gt0 (Pledge.intendedProject toPledge) = true →
           ∃ intendedProject,
             pledgeAdmins_get sv (Pledge.intendedProject toPledge)
               = Some intendedProject) →
          _transfer hp sv from to amount ts txHash = ([logger_error e], Fulfilled tt)).
Proof.
  intros Hdata candidates byTxHash byAmount result.
  assert (Hresult : result =
    (match candidates with
     | [d] => mret d
     | _ => match byTxHash with
            | [d] => mret d
            | _ => match byAmount with
                   | d :: _ => mret d
                   | [] => match candidates with
                           | [] => throw TypeError
                           | _ => throw (UnableToDetermine from to amount ts
                                           txHash candidates)
                           end
                   end
            end
     end : M obj).2).
  { subst result. unfold getDonation, find. rewrite Hdata.
    cbn [fmap option_fmap option_map read]. rewrite ret_bind. reflexivity. }
  split_and!.
  - intros d Hd. rewrite Hresult, Hd. reflexivity.
  - intros Hlen d Hd. rewrite Hresult, Hd.
    destruct candidates as [|d1 [|d2 l]]; cbn in *; done.
  - intros Hlen Hlen' d Hd. rewrite Hresult.
    destruct candidates as [|d1 [|d2 l]]; [| cbn in Hlen; done |];
      (destruct byTxHash as [|t1 [|t2 l']]; [| cbn in Hlen'; done |]);
      destruct byAmount; cbn in Hd; by simplify_eq.
  - intros Hlen Hlen' Hnone.
    assert (∃ e, result = RejectedWith e ∧
             (candidates ≠ [] →
              e = UnableToDetermine from to amount ts txHash candidates))
      as (e & He & Hctx).
    { rewrite Hresult, Hnone.
      destruct candidates as [|d1 [|d2 l]]; [| cbn in Hlen; done |];
        (destruct byTxHash as [|t1 [|t2 l']]; [| cbn in Hlen'; done |]);
        cbn; eexists; split; done. }
    exists e. split_and!; [done..|].
    intros hp fromPledge toPledge fromPledgeAdmin toPledgeAdmin ???? _ _.
    by eapply transfer_logs_getDonation_error.
Qed.

Lemma getDonation_cascade_witness :
  donations (sample_services sample_candidates) = Some sample_candidates ∧
  (getDonation (sample_services sample_candidates) "1" "2" "9" 5 "0xaa").2
    = Fulfilled (sample_donation "d3" "1" "9" "0xbb") ∧
  _transfer sample_pledgeState (sample_services sample_candidates)
      "1" "2" "8" 5 "0xaa"
    = ([logger_error (UnableToDetermine "1" "2" "8" 5 "0xaa" sample_candidates)],
       Fulfilled tt).
Proof.
  split; [reflexivity|]. split.
  - destruct (getDonation_cascade (sample_services sample_candidates)
                "1" "2" "9" 5 "0xaa" sample_candidates eq_refl) as (_ & _ & H & _).
    apply H; [vm_compute; lia | vm_compute; lia | reflexivity].
  - destruct (getDonation_cascade (sample_services sample_candidates)
                "1" "2" "8" 5 "0xaa" sample_candidates eq_refl) as (_ & _ & _ & H).
    destruct H as (e & _ & Hctx & Hlog);
      [vm_compute; lia | vm_compute; lia | reflexivity |].
    pose proof (Hctx ltac:(discriminate)) as He. subst e.
    apply (Hlog sample_pledgeState (sample_pledge "10" "0") (sample_pledge "20" "0")
             (sample_admin "10" "giver") (sample_admin "20" "campaign"));
      try reflexivity; intros Hgt; discriminate Hgt.
Defined.

(** C7, as stated, fails: of the three donations of pledge 1, two carry the
    event's txHash, and the one that is picked is the third, which does
    not; a cascade that takes a candidate carrying the txHash picks the
    first. *)
Lemma txHash_candidates_passed_over :
  filter (λ d, is_str (field d "pledgeId") "1" = true) sample_candidates
    = sample_candidates ∧
  (getDonation (sample_services sample_candidates) "1" "2" "9" 5 "0xaa").2
    = Fulfilled (sample_donation "d3" "1" "9" "0xbb") ∧
  is_str (field (sample_donation "d3" "1" "9" "0xbb") "txHash") "0xaa" = false ∧
  is_str (field (sample_donation "d1" "1" "5" "0xaa") "txHash") "0xaa" = true ∧
  getDonation_any_txHash sample_candidates "9" "0xaa"
    = Some (sample_donation "d1" "1" "5" "0xaa") ∧
  (getDonation (sample_services sample_candidates) "1" "2" "9" 5 "0xaa").2
    ≠ match getDonation_any_txHash sample_candidates "9" "0xaa" with
      | Some d => Fulfilled d
      | None => Forever
      end.
Proof.
  split_and!; try reflexivity.
  intros H.
  apply (f_equal (λ r, match r with Fulfilled d => field d "_id" | _ => JUndefined end))
    in H.
  vm_compute in H. discriminate H.
Qed.

Lemma newDonation_unfold (hp : string → jsval) (sv : Services)
    (to amount txHash : string)
    (retry : bool) (pledge : Pledge.t) (giver : PledgeAdmin.t) (data : list obj) :
  getPledge sv to = Some pledge →
  pledgeAdmins_get sv (Pledge.owner pledge) = Some giver →
  donations sv = Some data →
  newDonation hp sv to amount txHash retry =
    match head (filter (λ d, is_str (field d "txHash") txHash = true) data) with
    | None =>
      if retry then
        let new := assign (mint_mutation hp to amount pledge giver)
                          (object [("txHash", JStr txHash)]) in
        request (donations_create new) "donations.create" (created sv new)
      else throw ReProcessEvent
    | Some d =>
      request (donations_patch (field d "_id") (mint_mutation hp to amount pledge giver))
              "donations.patch"
              (patched sv (field d "_id") (mint_mutation hp to amount pledge giver))
    end.
Proof.
  intros Hpledge Hgiver Hdata. unfold newDonation, find.
  rewrite Hpledge. cbn [read]. rewrite ret_bind.
  rewrite Hgiver. cbn [read]. rewrite ret_bind.
  rewrite Hdata. cbn [fmap option_fmap option_map read]. rewrite ret_bind.
  reflexivity.
Qed.

Lemma processEvent_mint (hp : string → jsval) (sv : Services)
    (to amount txHash : string) (ts : Z)
    (retry : bool) :
  processEvent hp sv "0" to amount txHash (Fulfilled ts) retry =
    (err ← errWrapper (newDonation hp sv to amount txHash retry);
     match err with
     | Some ReProcessEvent => emit (setTimeout_processEvent true 5000)
     | Some err => emit (logger_error err);; emit (queue_purge txHash)
     | None => emit (queue_purge txHash)
     end).
Proof.
  unfold processEvent. change ([], Fulfilled ts) with (ret ts : M Z).
  rewrite ret_bind. reflexivity.
Qed.



(** *** Which promises settle *)

Lemma settles_bind {A B} (m : M A) (f : A → M B) :
  settles m → (∀ a, settles (f a)) → settles (m ≫= f).
Proof.
  destruct m as [calls [a|e|]]; unfold settles, mbind, M_bind, bind; cbn; try done.
  intros _ Hf. specialize (Hf a). by destruct (f a).
Qed.

Lemma settles_read {A} (service : string) (r : option A) : settles (read service r).
Proof. by destruct r. Qed.

Lemma settles_ret {A} (a : A) : settles (mret a : M A).
Proof. done. Qed.

Lemma settles_throw {A} (e : error) : settles (throw e : M A).
Proof. done. Qed.

Lemma settles_emit (c : call) : settles (emit c).
Proof. done. Qed.

Lemma settles_request {A} (c : call) (service : string) (r : option A) :
  settles (request c service r).
Proof. apply settles_bind; [apply settles_emit | intros; apply settles_read]. Qed.

Create HintDb settles.

#[local] Hint Resolve settles_read settles_ret settles_throw settles_emit
  settles_request : settles.

Ltac settle :=
  repeat first
    [ apply settles_bind; [|intros ?]
    | progress auto with settles
    | match goal with
      | |- settles (match ?x with _ => _ end) => destruct x
      | |- settles (if ?b then _ else _) => destruct b
      end ].

Lemma settles_newDonation (hp : string → jsval) sv pledgeId amount txHash retry :
  settles (newDonation hp sv pledgeId amount txHash retry).
Proof. unfold newDonation, find. settle. Qed.

Lemma settles_getDonation sv from to amount ts txHash :
  settles (getDonation sv from to amount ts txHash).
Proof. unfold getDonation, find. settle. Qed.

Lemma settles_createDonationMutation (hp : string → jsval) transferInfo :
  settles (createDonationMutation hp transferInfo).
Proof. unfold createDonationMutation. settle. Qed.

Lemma settles_trackDonationHistory sv transferInfo :
  settles (trackDonationHistory sv transferInfo).
Proof. unfold trackDonationHistory. settle. Qed.

Lemma settles_doTransfer (hp : string → jsval) sv transferInfo :
  settles (_doTransfer hp sv transferInfo).
Proof.
  unfold _doTransfer.
  destruct (is_str _ _).
  - apply settles_bind; [apply settles_createDonationMutation|]. intros mutation.
    apply settles_bind; [apply settles_request|]. intros _.
    apply settles_trackDonationHistory.
  - apply settles_bind; [apply settles_createDonationMutation|]. intros mutation.
    destruct (toBN _); [destruct (toBN _)|]; try apply settles_throw.
    do 4 (apply settles_bind; [solve [auto with settles] | intros ?]).
    apply settles_trackDonationHistory.
Qed.

Lemma transfer_always_fulfilled (hp : string → jsval) sv from to amount ts txHash :
  (_transfer hp sv from to amount ts txHash).2 = Fulfilled tt.
Proof.
  unfold _transfer.
  match goal with |- (catch_logger_error ?m).2 = _ => assert (Hm : settles m) end.
  { do 4 (apply settles_bind; [solve [auto with settles] | intros ?]).
    apply settles_bind; [apply settles_getDonation | intros ?].
    apply settles_bind; [settle | intros ?].
    apply settles_bind; [settle | intros ?].
    apply settles_doTransfer. }
  unfold settles in Hm.
  match goal with |- (catch_logger_error ?m).2 = _ => destruct m as [calls [[]|e|]] end;
    done.
Qed.

Lemma newDonation_retry_not_reprocess (hp : string → jsval) sv pledgeId amount txHash :
  (newDonation hp sv pledgeId amount txHash true).2 ≠ RejectedWith ReProcessEvent.
Proof.
  unfold newDonation, find.
  destruct (getPledge sv pledgeId) as [pledge|]; [|done]. cbn [read]. rewrite ret_bind.
  destruct (pledgeAdmins_get sv _) as [giver|]; [|done]. cbn [read]. rewrite ret_bind.
  destruct (donations sv) as [data|]; [|done].
  cbn [fmap option_fmap option_map read]. rewrite ret_bind.
  destruct (head _); unfold request.
  - by destruct (patched sv _ _).
  - by destruct (created sv _).
Qed.

Lemma last_snoc2 {A} (l : list A) (x y : A) : last (l ++ [x; y]) = Some y.
Proof.
  replace (l ++ [x; y]) with ((l ++ [x]) ++ [y]) by (by rewrite <- app_assoc).
  apply last_snoc.
Qed.

(** When the block timestamp arrives, an attempt at an event ends with the
    queue being advanced, whatever fails on the way; the one exception is
    the first attempt at a mint, which may end with the retry being
    scheduled instead, and the retry never does that again. *)
Lemma processEvent_advances_queue (hp : string → jsval) sv from to amount txHash ts retry :
  (processEvent hp sv from to amount txHash (Fulfilled ts) retry).2 = Fulfilled tt ∧
  (last (processEvent hp sv from to amount txHash (Fulfilled ts) retry).1
     = Some (queue_purge txHash)
   ∨ (from = "0" ∧ retry = false ∧
      (processEvent hp sv from to amount txHash (Fulfilled ts) retry).1
        = [setTimeout_processEvent true 5000])).
Proof.
  unfold processEvent. change ([], Fulfilled ts) with (ret ts : M Z).
  rewrite ret_bind. destruct (String.eqb_spec from "0") as [->|Hne].
  - pose proof (settles_newDonation hp sv to amount txHash retry) as Hs.
    pose proof (newDonation_retry_not_reprocess hp sv to amount txHash) as Hr.
    unfold settles in Hs.
    destruct (newDonation hp sv to amount txHash retry) as [calls [d|e|]] eqn:E;
      [| |done]; cbn.
    + split; [done|]. left. by rewrite last_snoc.
    + destruct e; cbn; (split; [done|]).
      1: { right. destruct retry; [by rewrite E in Hr|].
           split_and!; [done..|].
           revert E. unfold newDonation, find.
           destruct (getPledge sv to) as [pledge|]; [|done]. cbn [read]. rewrite ret_bind.
           destruct (pledgeAdmins_get sv _) as [giver|]; [|done]. cbn [read].
           rewrite ret_bind.
           destruct (donations sv) as [data|]; [|done].
           cbn [fmap option_fmap option_map read]. rewrite ret_bind.
           destruct (head _); unfold request; [by destruct (patched sv _ _)|].
           by intros [= <-]. }
      all: left; apply last_snoc2.
  - pose proof (transfer_always_fulfilled hp sv from to amount ts txHash) as Ht.
    destruct (_transfer hp sv from to amount ts txHash) as [calls r].
    cbn in Ht. subst r. cbn. split; [done|]. left. by rewrite last_snoc.
Qed.

(** C3: when the promise of [getBlockTimestamp] is rejected, or never
    settles, the attempt at the event stops right there: [queue.purge] is
    not called (nothing at all is), on the first attempt and on a retry
    alike. *)
Theorem timestamp_failure_blocks_the_queue (hp : string → jsval) (sv : Services)
    (from to amount txHash : string) (e : error) (retry : bool) :
  processEvent hp sv from to amount txHash (RejectedWith e) retry
    = ([], RejectedWith e) ∧
  processEvent hp sv from to amount txHash Forever retry = ([], Forever).
Proof. split; reflexivity. Qed.

Lemma toBN_toString (n : Z) : toBN (JStr (toString n)) = Some n.
Proof.
  unfold toBN, to_number, toString. rewrite NilEmpty.isi. cbn.
  by rewrite DecimalZ.of_to.
Qed.

Lemma request_calls {A} (c : call) (service : string) (r : option A) :
  (request c service r;; mret tt : M unit).1 = [c].
Proof. by destruct r. Qed.

Lemma trackDonationHistory_calls (sv : Services) (transferInfo : TransferInfo) :
  filter (λ c, on_donations c = true) (trackDonationHistory sv transferInfo).1 = [].
Proof.
  unfold trackDonationHistory.
  destruct (delegate transferInfo), (toDonation transferInfo);
    repeat match goal with
           | |- context [if ?b then _ else _] => destruct b
           end;
    rewrite ?request_calls; reflexivity.
Qed.

Lemma split_is_not_a_complete_transfer (v : jsval) (amount : string) (was moved : Z) :
  toBN v = Some was → toBN (JStr amount) = Some moved → (moved < was)%Z →
  is_str v amount = false.
Proof.
  intros Hwas Hmoved Hlt. destruct v as [| | |s| |]; try done.
  cbn. destruct (String.eqb_spec s amount) as [->|]; [|done].
  rewrite Hwas in Hmoved. injection Hmoved as ->. lia.
Qed.

(** C6: when the matched donation holds more than the transferred amount,
    the donation store sees exactly two calls, one patch of the matched
    donation, which sets its amount to the difference, and one create of a
    new donation, which holds the transferred amount; the two amounts add
    up, as integers, to what the matched donation held. *)
Theorem split_conserves_the_amount (hp : string → jsval) (sv : Services)
    (transferInfo : TransferInfo)
    (was moved : Z) :
  toBN (field (donation transferInfo) "amount") = Some was →
  toBN (JStr (amount transferInfo)) = Some moved →
  (moved < was)%Z →
  ∃ update newDonation after new,
    filter (λ c, on_donations c = true) (_doTransfer hp sv transferInfo).1
      = [donations_patch (field (donation transferInfo) "_id") update;
         donations_create newDonation] ∧
    toBN (field update "amount") = Some after ∧
    toBN (field newDonation "amount") = Some new ∧
    after = (was - moved)%Z ∧ new = moved ∧
    (after + new = was)%Z.
Proof.
  intros Hwas Hmoved Hlt.
  destruct (createDonationMutation_calls hp transferInfo) as (Hcalls & mutation & Hm).
  assert (Hamount : mutation !! "amount" = Some (JStr (amount transferInfo))).
  { revert Hm. unfold createDonationMutation. rewrite bind_result.
    match goal with |- context [if ?b then emit ?c else mret tt] => destruct b end;
      cbn; intros [= <-];
      destruct (intendedProject transferInfo);
      destruct (truthy (field (donation transferInfo) "intendedProject"));
      destruct (delegate transferInfo);
      destruct (truthy (field (donation transferInfo) "delegate"));
      destruct (Pledge.pledgeState (toPledge transferInfo) =? "1")%string;
      reflexivity. }
  eexists _, _, (was - moved)%Z, moved.
  split_and!; [| | |done|done|lia].
  - unfold _doTransfer.
    rewrite (split_is_not_a_complete_transfer _ _ _ _ Hwas Hmoved Hlt).
    rewrite Hwas, Hmoved.
    destruct (createDonationMutation hp transferInfo) as [calls0 r0].
    cbn in Hcalls, Hm. subst r0.
    rewrite bind_calls. cbn [fst snd]. rewrite filter_app, Hcalls. cbn [app].
    rewrite !bind_calls. cbn [fst snd emit].
    rewrite !filter_app.
    destruct (patched sv _ _); cbn [read fst snd ret throw app];
      [|reflexivity].
    destruct (created sv _) as [created|]; cbn [read fst snd ret throw app];
      [|reflexivity].
    rewrite trackDonationHistory_calls. reflexivity.
  - unfold field. cbn. apply toBN_toString.
  - unfold field, assign.
    rewrite !lookup_delete_ne by done.
    erewrite lookup_union_Some_l by exact Hamount. exact Hmoved.
Qed.

Lemma split_conserves_the_amount_witness :
  ∃ update newDonation,
    filter (λ c, on_donations c = true)
           (_doTransfer sample_pledgeState (sample_services []) sample_split).1
      = [donations_patch (JStr "d1") update; donations_create newDonation] ∧
    toBN (field update "amount") = Some 60%Z ∧
    toBN (field newDonation "amount") = Some 40%Z.
Proof.
  destruct (split_conserves_the_amount sample_pledgeState (sample_services [])
              sample_split 100 40 eq_refl eq_refl eq_refl)
    as (update & newDonation & after & new & Hcalls & Hafter & Hnew & -> & -> & _).
  exists update, newDonation. split_and!; [exact Hcalls | exact Hafter | exact Hnew].
Defined.

End PledgesFacts.

(** ** More about the block-timestamp cache *)

Module BlockTimestampsMore.
Import BlockTimestamps BlockTimestampsFacts.

Lemma getBlockTimestamp_blockTimes (b : N) (st : state) :
  blockTimes (getBlockTimestamp b st).1 = blockTimes st.
Proof.
  unfold getBlockTimestamp.
  destruct (blockTimes st !! b); [done|].
  by destruct (fetchingBlocks st !! b).
Qed.

Lemma on_block_blockTimes (b : N) (block : Block) (st : state) :
  blockTimes (on_block b block st).1
  = evict (<[b := new_Date block]> (blockTimes st)).
Proof. unfold on_block. by destruct (fetchingBlocks st !! b). Qed.

Lemma exec_size (ev : event) (st st' : state) :
  (size (blockTimes st) ≤ 50)%nat → exec ev st = Some st' →
  (size (blockTimes st') ≤ 50)%nat.
Proof.
  intros Hsize. destruct ev as [b|b block|b]; cbn [exec].
  - intros [= <-]. by rewrite getBlockTimestamp_blockTimes.
  - destruct (decide (b ∈ outstanding st)); [|done]. intros [= <-].
    rewrite on_block_blockTimes. apply evict_size.
  - destruct (decide (b ∈ outstanding st)); [|done]. by intros [= <-].
Qed.

(** X1: whatever calls, answers and rejections the cache has seen, it holds
    at most 50 timestamps. *)
Theorem cache_never_exceeds_50 (evs : list event) (st : state) :
  run evs init = Some st → (size (blockTimes st) ≤ 50)%nat.
Proof.
  assert (Hgen : ∀ evs st0 st, (size (blockTimes st0) ≤ 50)%nat →
            run evs st0 = Some st → (size (blockTimes st) ≤ 50)%nat).
  { clear. induction evs as [|ev evs IH]; intros st0 st Hsize; cbn [run].
    - by intros [= <-].
    - destruct (exec ev st0) as [st1|] eqn:E; [|done].
      apply IH. by eapply exec_size. }
  apply Hgen. cbn. rewrite map_size_empty. lia.
Qed.

Lemma cache_never_exceeds_50_witness :
  ∃ st, run (fetch_upto 60) init = Some st ∧ (size (blockTimes st) ≤ 50)%nat.
Proof.
  assert (∃ st, run (fetch_upto 60) init = Some st) as [st Hst]
    by (eexists; vm_compute; reflexivity).
  exists st. split; [exact Hst|].
  exact (cache_never_exceeds_50 (fetch_upto 60) st Hst).
Defined.

(** X2: when the cache holds fewer than 50 timestamps and web3 answers the
    request for a block, the next call for that block is served from the
    cache, with the timestamp of the answer, and changes nothing: no
    request goes out and no listener is attached. *)
Theorem fetched_block_is_served_from_cache (b : N) (block : Block) (st st' : state) :
  (size (blockTimes st) < 50)%nat →
  exec (GetBlockResolves b block) st = Some st' →
  getBlockTimestamp b st' = (st', Cached (new_Date block)).
Proof.
  intros Hsize. cbn [exec].
  destruct (decide (b ∈ outstanding st)); [|done]. intros [= <-].
  unfold getBlockTimestamp at 1. rewrite on_block_blockTimes.
  cbn [set_outstanding blockTimes].
  assert (Hkeep : evict (<[b := new_Date block]> (blockTimes st))
                  = <[b := new_Date block]> (blockTimes st)).
  { unfold evict. rewrite decide_False; [done|].
    pose proof (map_size_insert b (new_Date block) (blockTimes st)) as Hins.
    destruct (blockTimes st !! b); cbn in Hins; lia. }
  by rewrite Hkeep, lookup_insert_eq.
Qed.

Lemma fetched_block_is_served_from_cache_witness :
  ∃ st st',
    run [Call 7%N] init = Some st ∧ (size (blockTimes st) < 50)%nat ∧
    exec (GetBlockResolves 7%N {| timestamp := 3 |}) st = Some st' ∧
    getBlockTimestamp 7%N st' = (st', Cached 3000%Z).
Proof.
  eexists _, _. split; [reflexivity|].
  split; [vm_compute; lia|]. split; [vm_compute; reflexivity|].
  apply (fetched_block_is_served_from_cache 7%N {| timestamp := 3 |}
           (getBlockTimestamp 7%N init).1).
  - vm_compute; lia.
  - vm_compute; reflexivity.
Defined.

(** X3: when the cache holds 50 timestamps and web3 answers the request for
    one more block, the cache is empty afterwards, and the next call for
    that very block sends a new request to web3. *)
Theorem overflowing_fetch_is_fetched_again
    (evs : list event) (b : N) (block : Block) (st st' : state) :
  run evs init = Some st →
  size (blockTimes st) = 50%nat →
  exec (GetBlockResolves b block) st = Some st' →
  blockTimes st' = ∅ ∧
  (getBlockTimestamp b st').2 = Fetch b ∧
  outstanding (getBlockTimestamp b st').1 = b :: outstanding st'.
Proof.
  intros Hrun Hsize. assert (I : inv st) by (apply inv_reachable; by exists evs).
  cbn [exec]. destruct (decide (b ∈ outstanding st)) as [Hb|]; [|done].
  intros [= <-]. destruct (inv_marked st I b Hb) as [[ls Hls] Hbt].
  assert (Hempty : evict (<[b := new_Date block]> (blockTimes st)) = ∅).
  { apply evict_overflow. rewrite map_size_insert_None by done. lia. }
  unfold getBlockTimestamp, on_block. cbn [set_outstanding fetchingBlocks blockTimes].
  rewrite Hls, Hempty. cbn [fst blockTimes fetchingBlocks].
  by rewrite lookup_empty, lookup_delete_eq.
Qed.

Lemma overflowing_fetch_is_fetched_again_witness :
  ∃ st st',
    run (fetch_upto 50 ++ [Call 51%N]) init = Some st ∧
    size (blockTimes st) = 50%nat ∧
    exec (GetBlockResolves 51%N {| timestamp := 51 |}) st = Some st' ∧
    blockTimes st' = ∅ ∧
    (getBlockTimestamp 51%N st').2 = Fetch 51%N ∧
    outstanding (getBlockTimestamp 51%N st').1 = 51%N :: outstanding st'.
Proof.
  assert (∃ st, run (fetch_upto 50 ++ [Call 51%N]) init = Some st) as [st Hst]
    by (eexists; vm_compute; reflexivity).
  assert (Hsize : size (blockTimes st) = 50%nat).
  { vm_compute in Hst. injection Hst as <-. vm_compute. reflexivity. }
  assert (∃ st', exec (GetBlockResolves 51%N {| timestamp := 51 |}) st = Some st')
    as [st' Hst'].
  { vm_compute in Hst. injection Hst as <-. eexists. vm_compute. reflexivity. }
  exists st, st'. split; [exact Hst|]. split; [exact Hsize|]. split; [exact Hst'|].
  exact (overflowing_fetch_is_fetched_again _ 51%N _ st st' Hst Hsize Hst').
Defined.

Lemma quiet_exec (ev : event) (st st' : state) :
  inv st → (∀ b, is_Some (fetchingBlocks st !! b) → b ∈ outstanding st) →
  rejection ev = false → exec ev st = Some st' →
  ∀ b, is_Some (fetchingBlocks st' !! b) → b ∈ outstanding st'.
Proof.
  intros I Hq Hev. destruct ev as [b0|b0 block|b0]; [| |done]; cbn [exec].
  - intros [= <-] b. unfold getBlockTimestamp.
    destruct (blockTimes st !! b0); [apply Hq|].
    destruct (fetchingBlocks st !! b0) as [ls|] eqn:Hls; cbn.
    + rewrite lookup_insert. case_decide as Hb; [|apply Hq].
      subst. intros _. apply Hq. by eexists.
    + rewrite lookup_insert. case_decide as Hb.
      * subst. intros _. apply list_elem_of_here.
      * intros Hm. apply list_elem_of_further. by apply Hq.
  - destruct (decide (b0 ∈ outstanding st)) as [Hb0|]; [|done].
    intros [= <-] b. destruct (inv_marked st I b0 Hb0) as [[ls Hls] _].
    unfold on_block. cbn [set_outstanding fetchingBlocks]. rewrite Hls. cbn.
    destruct (decide (b0 = b)) as [->|Hne].
    + rewrite lookup_delete_eq. by intros [? ?].
    + rewrite lookup_delete_ne by done. intros Hm.
      apply answered_other; [done|]. by apply Hq.
Qed.

(** X4: as long as web3 rejects no request, a block carries the in-flight
    marker exactly while its request is outstanding: no marker is left
    behind once the answer has come. *)
Theorem marker_means_outstanding (evs : list event) (st : state) (b : N) :
  run evs init = Some st →
  forallb (λ ev, negb (rejection ev)) evs = true →
  is_Some (fetchingBlocks st !! b) ↔ b ∈ outstanding st.
Proof.
  intros Hrun Hquiet. split.
  - revert b.
    assert (Hgen : ∀ evs st0 st,
      inv st0 → (∀ b, is_Some (fetchingBlocks st0 !! b) → b ∈ outstanding st0) →
      forallb (λ ev, negb (rejection ev)) evs = true → run evs st0 = Some st →
      ∀ b, is_Some (fetchingBlocks st !! b) → b ∈ outstanding st).
    { clear. induction evs as [|ev evs IH]; intros st0 st I Hq Hquiet; cbn [run].
      - by intros [= <-].
      - cbn [forallb] in Hquiet. apply andb_true_iff in Hquiet as [Hev Hquiet].
        apply negb_true_iff in Hev.
        destruct (exec ev st0) as [st1|] eqn:E; [|done].
        apply IH; [by eapply inv_exec | by eapply quiet_exec | done]. }
    apply (Hgen evs init st inv_init); [|done..].
    intros b [x Hx]. done.
  - intros Hb. assert (I : inv st) by (apply inv_reachable; by exists evs).
    by destruct (inv_marked st I b Hb).
Qed.

Lemma marker_means_outstanding_witness :
  ∃ st,
    run [Call 7%N; Call 8%N; GetBlockResolves 7%N {| timestamp := 3 |}] init
      = Some st ∧
    (is_Some (fetchingBlocks st !! 8%N) ↔ 8%N ∈ outstanding st) ∧
    (is_Some (fetchingBlocks st !! 7%N) ↔ 7%N ∈ outstanding st).
Proof.
  eexists. split; [vm_compute; reflexivity|].
  split; eapply (marker_means_outstanding
    [Call 7%N; Call 8%N; GetBlockResolves 7%N {| timestamp := 3 |}]);
    vm_compute; reflexivity.
Defined.

(** X5: a listener waits for the answer to its own block only: whatever is
    called, answered or rejected for other blocks (and even if the request
    for its block is rejected), as long as web3 has not answered the
    request for its block with a block, the listener stays on the list and
    its promise is not resolved. *)
Theorem listener_waits_for_its_block
    (evs evs' : list event) (p : nat) (b : N) (st st' : state) :
  run evs init = Some st →
  listening p b st →
  (∀ block, GetBlockResolves b block ∉ evs') →
  run evs' st = Some st' →
  listening p b st' ∧ p ∉ (resolved st').*1.
Proof.
  intros Hrun Hl Hevs' Hrun'.
  assert (I : inv st) by (apply inv_reachable; by exists evs).
  assert (I' : inv st') by (by eapply inv_run).
  assert (Hl' : listening p b st').
  { clear Hrun I I'. revert st Hl Hrun'.
    induction evs' as [|ev evs' IH]; intros st Hl; cbn [run].
    - by intros [= <-].
    - destruct (exec ev st) as [st1|] eqn:E; [|done].
      apply IH.
      + intros block Hin. apply (Hevs' block). by apply list_elem_of_further.
      + eapply listening_exec; [done | | done].
        intros block ->. apply (Hevs' block), list_elem_of_here. }
  split; [done|]. by eapply inv_pending.
Qed.

Lemma listener_waits_for_its_block_witness :
  ∃ st st',
    run [Call 7%N; Call 7%N] init = Some st ∧ listening 0 7%N st ∧
    run [Call 8%N; GetBlockResolves 8%N {| timestamp := 3 |}; GetBlockRejects 7%N] st
      = Some st' ∧
    listening 0 7%N st' ∧ 0 ∉ (resolved st').*1.
Proof.
  assert (∃ st, run [Call 7%N; Call 7%N] init = Some st) as [st Hst]
    by (eexists; reflexivity).
  assert (Hl : listening 0 7%N st).
  { vm_compute in Hst. injection Hst as <-. exists [0]. split; [reflexivity|].
    apply list_elem_of_here. }
  assert (∃ st', run [Call 8%N; GetBlockResolves 8%N {| timestamp := 3 |};
                       GetBlockRejects 7%N] st = Some st') as [st' Hst'].
  { vm_compute in Hst. injection Hst as <-. eexists. vm_compute. reflexivity. }
  exists st, st'. split; [exact Hst|]. split; [exact Hl|]. split; [exact Hst'|].
  apply (listener_waits_for_its_block [Call 7%N; Call 7%N]
           [Call 8%N; GetBlockResolves 8%N {| timestamp := 3 |}; GetBlockRejects 7%N]
           0 7%N st st' Hst Hl); [|exact Hst'].
  intros block Hin. repeat (apply elem_of_cons in Hin as [Hin|Hin]; [discriminate Hin|]).
  by apply not_elem_of_nil in Hin.
Defined.

End BlockTimestampsMore.

(** ** More about the Transfer-event handler *)

Module PledgesMore.
Import Pledges PledgesFacts.

(** What [createDonationMutation] always yields: it is fulfilled, calls
    nothing but (at most) the milestone store, and these fields of the
    mutation are settled whatever the later [Object.assign]s add. *)
Lemma createDonationMutation_fields (hp : string → jsval) (transferInfo : TransferInfo) :
  ∃ calls mutation,
    createDonationMutation hp transferInfo = (calls, Fulfilled mutation) ∧
    Forall (λ c, on_milestones c = true) calls ∧
    mutation !! "amount" = Some (JStr (amount transferInfo)) ∧
    mutation !! "pledgeId" = Some (JStr (toPledgeId transferInfo)) ∧
    mutation !! "status" = Some (JStr
      (getDonationStatus (toPledge transferInfo) (toPledgeAdmin transferInfo)
         (JBool (bool_decide (is_Some (intendedProject transferInfo))))
         (JBool (bool_decide (is_Some (delegate transferInfo)))))) ∧
    mutation !! "txHash" = None ∧ mutation !! "giverAddress" = None ∧
    mutation !! "_id" = None.
Proof.
  unfold createDonationMutation.
  match goal with |- context [if ?b then emit ?c else mret tt] => destruct b end;
    cbn; eexists _, _; (split; [reflexivity|]);
    (split; [repeat constructor|]);
    destruct (intendedProject transferInfo);
    destruct (truthy (field (donation transferInfo) "intendedProject"));
    destruct (delegate transferInfo);
    destruct (truthy (field (donation transferInfo) "delegate"));
    destruct (Pledge.pledgeState (toPledge transferInfo) =? "1")%string;
    split_and!; reflexivity.
Qed.

(** [trackDonationHistory] creates one entry or none. *)
Lemma trackDonationHistory_shape (sv : Services) (transferInfo : TransferInfo) :
  (trackDonationHistory sv transferInfo).1 = []
  ∨ (Pledge.pledgeState (toPledge transferInfo) = "0" ∧
     ∃ history, (trackDonationHistory sv transferInfo).1
                = [donationsHistory_create history]).
Proof.
  unfold trackDonationHistory.
  destruct (String.eqb_spec (Pledge.pledgeState (toPledge transferInfo)) "0")
    as [Hstate|Hstate].
  - match goal with
    | |- context [if true && ?b then _ else _] => destruct b
    end; cbn [andb].
    + right. split; [done|]. eexists. apply request_calls.
    + destruct (toDonation transferInfo); [|by left].
      right. split; [done|]. eexists. apply request_calls.
  - cbn [andb]. left. by destruct (toDonation transferInfo).
Qed.

Lemma doTransfer_complete (hp : string → jsval) (sv : Services)
    (transferInfo : TransferInfo) (calls : list call) (mutation : obj) :
  createDonationMutation hp transferInfo = (calls, Fulfilled mutation) →
  is_str (field (donation transferInfo) "amount") (amount transferInfo) = true →
  (_doTransfer hp sv transferInfo).1
  = calls ++ [donations_patch (field (donation transferInfo) "_id") mutation]
    ++ match patched sv (field (donation transferInfo) "_id") mutation with
       | Some _ => (trackDonationHistory sv transferInfo).1
       | None => []
       end.
Proof.
  intros Hm Hcomplete. unfold _doTransfer. rewrite Hcomplete, Hm.
  rewrite bind_calls. cbn [fst snd]. f_equal.
  rewrite bind_calls. unfold request at 1. rewrite bind_calls. cbn [emit fst snd].
  unfold request. rewrite bind_result. cbn [emit snd].
  by destruct (patched sv _ _).
Qed.

Lemma doTransfer_split (hp : string → jsval) (sv : Services)
    (transferInfo : TransferInfo) (calls : list call) (mutation : obj)
    (was moved : Z) :
  createDonationMutation hp transferInfo = (calls, Fulfilled mutation) →
  is_str (field (donation transferInfo) "amount") (amount transferInfo) = false →
  toBN (field (donation transferInfo) "amount") = Some was →
  toBN (JStr (amount transferInfo)) = Some moved →
  ∃ status,
    let update := object [("status", JStr status);
                          ("amount", JStr (toString (was - moved)))] in
    let newDonation :=
      delete "confirmations" (delete "requiredConfirmations" (delete "ownerEntity"
        (delete "giver" (delete "_id" (assign (donation transferInfo) mutation))))) in
    (amount transferInfo = "0" → status = "paid") ∧
    (_doTransfer hp sv transferInfo).1
    = calls ++ [donations_patch (field (donation transferInfo) "_id") update;
                donations_create newDonation]
      ++ match patched sv (field (donation transferInfo) "_id") update,
               created sv newDonation with
         | Some _, Some toDonation =>
           (trackDonationHistory sv (with_toDonation transferInfo toDonation)).1
         | _, _ => []
         end.
Proof.
  intros Hm Hsplit Hwas Hmoved. unfold _doTransfer.
  rewrite Hsplit, Hm, Hwas, Hmoved.
  exists (if (amount transferInfo =? "0")%string then "paid"
          else getDonationStatus (fromPledge transferInfo)
                 (fromPledgeAdmin transferInfo)
                 (js_and (field (donation transferInfo) "intendedProject")
                    (JBool (negb (is_str (field (donation transferInfo)
                                            "intendedProject") "0"))))
                 (JBool (truthy (field (donation transferInfo) "delegate")))).
  cbn zeta. split.
  2: { rewrite bind_calls. cbn [fst snd]. f_equal.
       destruct (patched sv _ _); destruct (created sv _) as [toDonation|];
         try reflexivity.
       unfold mbind, M_bind. cbn [bind emit read ret fst snd app].
       destruct (trackDonationHistory sv (with_toDonation transferInfo toDonation));
         reflexivity. }
  intros ->. reflexivity.
Qed.

Lemma doTransfer_invalid (hp : string → jsval) (sv : Services)
    (transferInfo : TransferInfo) (calls : list call) (mutation : obj) :
  createDonationMutation hp transferInfo = (calls, Fulfilled mutation) →
  is_str (field (donation transferInfo) "amount") (amount transferInfo) = false →
  toBN (field (donation transferInfo) "amount") = None
    ∨ toBN (JStr (amount transferInfo)) = None →
  _doTransfer hp sv transferInfo = (calls, RejectedWith InvalidNumber).
Proof.
  intros Hm Hsplit Hbad. unfold _doTransfer. rewrite Hsplit, Hm.
  destruct Hbad as [Hbad|Hbad]; rewrite Hbad.
  - cbn. by rewrite app_nil_r.
  - destruct (toBN (field _ _)); cbn; by rewrite app_nil_r.
Qed.

Lemma with_toDonation_toPledge (transferInfo : TransferInfo) (created : obj) :
  toPledge (with_toDonation transferInfo created) = toPledge transferInfo.
Proof. reflexivity. Qed.

Lemma milestone_calls_elsewhere (calls : list call) :
  Forall (λ c, on_milestones c = true) calls →
  filter (λ c, on_donations c = true) calls = []
  ∧ filter (λ c, on_history c = true) calls = []
  ∧ filter (λ c, on_logger c = true) calls = []
  ∧ filter (λ c, on_queue c = true) calls = [].
Proof.
  induction 1 as [|c calls Hc _ (IH1 & IH2 & IH3 & IH4)]; [done|].
  destruct c; try discriminate Hc.
  rewrite !filter_cons. cbn. rewrite IH1, IH2, IH3, IH4.
  repeat case_decide; done.
Qed.

Lemma history_calls_elsewhere (sv : Services) (transferInfo : TransferInfo) :
  filter (λ c, on_donations c = true) (trackDonationHistory sv transferInfo).1 = []
  ∧ filter (λ c, on_milestones c = true) (trackDonationHistory sv transferInfo).1 = []
  ∧ filter (λ c, on_logger c = true) (trackDonationHistory sv transferInfo).1 = []
  ∧ filter (λ c, on_queue c = true) (trackDonationHistory sv transferInfo).1 = [].
Proof.
  destruct (trackDonationHistory_shape sv transferInfo) as [->|(_ & h & ->)]; done.
Qed.

Ltac doTransfer_cases hp sv ti :=
  let calls0 := fresh "calls0" in
  let mutation := fresh "mutation" in
  let was := fresh "was" in
  let moved := fresh "moved" in
  destruct (createDonationMutation_fields hp ti)
    as (calls0 & mutation & Hm & Hms & Hamount & HpledgeId & Hstatus & HtxHash
        & Hgiver & Hid);
  destruct (is_str (field (donation ti) "amount") (amount ti)) eqn:Hcomplete;
  [ rewrite (doTransfer_complete hp sv ti calls0 mutation Hm Hcomplete)
  | destruct (toBN (field (donation ti) "amount")) as [was|] eqn:Hwas;
    [ destruct (toBN (JStr (amount ti))) as [moved|] eqn:Hmoved;
      [ destruct (doTransfer_split hp sv ti calls0 mutation was moved Hm Hcomplete
                    Hwas Hmoved) as (status & Hzero & Hcalls);
        cbn zeta in Hcalls; rewrite Hcalls; clear Hcalls
      | rewrite (doTransfer_invalid hp sv ti calls0 mutation Hm Hcomplete
                   (or_intror Hmoved)) ]
    | rewrite (doTransfer_invalid hp sv ti calls0 mutation Hm Hcomplete
                 (or_introl Hwas)) ] ].

(** X6: when the matched donation holds exactly the transferred amount, the
    donation store sees one call only, a patch of that donation, which
    moves it to the destination pledge; nothing is created. *)
Theorem complete_transfer_is_one_patch (hp : string → jsval) (sv : Services)
    (transferInfo : TransferInfo) :
  is_str (field (donation transferInfo) "amount") (amount transferInfo) = true →
  ∃ mutation,
    filter (λ c, on_donations c = true) (_doTransfer hp sv transferInfo).1
      = [donations_patch (field (donation transferInfo) "_id") mutation] ∧
    field mutation "pledgeId" = JStr (toPledgeId transferInfo) ∧
    field mutation "amount" = JStr (amount transferInfo).
Proof.
  intros Hfull. doTransfer_cases hp sv transferInfo; try discriminate Hfull.
  exists mutation. unfold field. rewrite HpledgeId, Hamount. split; [|done].
  destruct (milestone_calls_elsewhere _ Hms) as (H0 & _).
  rewrite !filter_app, H0.
  destruct (patched sv _ _); [|done].
  destruct (history_calls_elsewhere sv transferInfo) as (H1 & _).
  by rewrite H1.
Qed.

Lemma complete_transfer_is_one_patch_witness :
  ∃ mutation,
    filter (λ c, on_donations c = true)
           (_doTransfer sample_pledgeState (sample_services []) sample_complete).1
      = [donations_patch (JStr "d1") mutation] ∧
    field mutation "pledgeId" = JStr "2" ∧ field mutation "amount" = JStr "100".
Proof.
  apply (complete_transfer_is_one_patch sample_pledgeState (sample_services [])
           sample_complete). reflexivity.
Defined.

(** X7: a transfer leaves at most one history entry, and none at all unless
    the destination pledge is in state ['0']. *)
Theorem history_only_into_normal_pledges (hp : string → jsval) (sv : Services)
    (transferInfo : TransferInfo) :
  (length (filter (λ c, on_history c = true) (_doTransfer hp sv transferInfo).1)
     ≤ 1)%nat ∧
  (Pledge.pledgeState (toPledge transferInfo) ≠ "0" →
   filter (λ c, on_history c = true) (_doTransfer hp sv transferInfo).1 = []).
Proof.
  doTransfer_cases hp sv transferInfo;
    destruct (milestone_calls_elsewhere _ Hms) as (_ & H0 & _);
    cbn [fst]; rewrite ?filter_app, ?H0;
    change (filter (λ c, on_history c = true) [donations_patch ?id ?d]) with (@nil call);
    change (filter (λ c, on_history c = true)
              [donations_patch ?id ?d; donations_create ?n]) with (@nil call);
    cbn [app].
  - destruct (patched sv _ _); [|split; [vm_compute; lia | done]].
    destruct (trackDonationHistory_shape sv transferInfo) as [->|(Hs & h & ->)];
      (split; [vm_compute; lia | done]).
  - destruct (patched sv _ _); [|split; [vm_compute; lia | done]].
    destruct (created sv _) as [toDonation|]; [|split; [vm_compute; lia | done]].
    destruct (trackDonationHistory_shape sv (with_toDonation transferInfo toDonation))
      as [->|(Hs & h & ->)]; (split; [vm_compute; lia | done]).
  - split; [vm_compute; lia | done].
  - split; [vm_compute; lia | done].
Qed.

Lemma milestone_calls_only (calls : list call) (c : call) :
  Forall (λ c, on_milestones c = true) calls → c ∈ calls → on_milestones c = true.
Proof. intros Hall Hc. by eapply Forall_forall in Hall. Qed.

Lemma history_calls_only (sv : Services) (transferInfo : TransferInfo) (c : call) :
  c ∈ (trackDonationHistory sv transferInfo).1 → on_history c = true.
Proof.
  destruct (trackDonationHistory_shape sv transferInfo) as [->|(_ & h & ->)].
  - by intros ?%not_elem_of_nil.
  - by intros ->%list_elem_of_singleton.
Qed.

(** X8: the history entry is written only after the donation store has
    taken the writes: when a transfer leaves a history entry, every patch
    and every create it sent to the donation store was accepted. *)
Theorem history_follows_accepted_writes (hp : string → jsval) (sv : Services)
    (transferInfo : TransferInfo) (history : obj) :
  donationsHistory_create history ∈ (_doTransfer hp sv transferInfo).1 →
  (∀ id data, donations_patch id data ∈ (_doTransfer hp sv transferInfo).1 →
              is_Some (patched sv id data)) ∧
  (∀ data, donations_create data ∈ (_doTransfer hp sv transferInfo).1 →
           is_Some (created sv data)).
Proof.
  doTransfer_cases hp sv transferInfo; cbn [fst]; rewrite ?elem_of_app.
  - intros [Hh|[Hh|Hh]].
    + by apply (milestone_calls_only _ _ Hms) in Hh.
    + by apply list_elem_of_singleton in Hh.
    + destruct (patched sv _ _) eqn:Hp; [|by apply not_elem_of_nil in Hh].
      split.
      * intros id data. rewrite !elem_of_app. intros [Hc|[Hc|Hc]].
        -- by apply (milestone_calls_only _ _ Hms) in Hc.
        -- apply list_elem_of_singleton in Hc. injection Hc as -> ->.
           eexists. exact Hp.
        -- by apply history_calls_only in Hc.
      * intros data. rewrite !elem_of_app. intros [Hc|[Hc|Hc]].
        -- by apply (milestone_calls_only _ _ Hms) in Hc.
        -- by apply list_elem_of_singleton in Hc.
        -- by apply history_calls_only in Hc.
  - intros [Hh|[Hh|Hh]].
    + by apply (milestone_calls_only _ _ Hms) in Hh.
    + apply elem_of_cons in Hh as [Hh|Hh]; [done|].
      by apply list_elem_of_singleton in Hh.
    + destruct (patched sv _ _) eqn:Hp; [|by apply not_elem_of_nil in Hh].
      destruct (created sv _) as [toDonation|] eqn:Hc';
        [|by apply not_elem_of_nil in Hh].
      split.
      * intros id data. rewrite !elem_of_app. intros [Hc|[Hc|Hc]].
        -- by apply (milestone_calls_only _ _ Hms) in Hc.
        -- apply elem_of_cons in Hc as [Hc|Hc].
           ++ injection Hc as -> ->. eexists. exact Hp.
           ++ by apply list_elem_of_singleton in Hc.
        -- by apply history_calls_only in Hc.
      * intros data. rewrite !elem_of_app. intros [Hc|[Hc|Hc]].
        -- by apply (milestone_calls_only _ _ Hms) in Hc.
        -- apply elem_of_cons in Hc as [Hc|Hc]; [done|].
           apply list_elem_of_singleton in Hc. injection Hc as ->.
           eexists. exact Hc'.
        -- by apply history_calls_only in Hc.
  - intros Hh. by apply (milestone_calls_only _ _ Hms) in Hh.
  - intros Hh. by apply (milestone_calls_only _ _ Hms) in Hh.
Qed.

Lemma history_follows_accepted_writes_witness :
  ∃ history update newDonation,
    donationsHistory_create history
      ∈ (_doTransfer sample_pledgeState (sample_services []) sample_split).1 ∧
    donations_patch (JStr "d1") update
      ∈ (_doTransfer sample_pledgeState (sample_services []) sample_split).1 ∧
    donations_create newDonation
      ∈ (_doTransfer sample_pledgeState (sample_services []) sample_split).1 ∧
    is_Some (patched (sample_services []) (JStr "d1") update) ∧
    is_Some (created (sample_services []) newDonation).
Proof.
  assert (∃ update newDonation history,
    (_doTransfer sample_pledgeState (sample_services []) sample_split).1
    = [donations_patch (JStr "d1") update; donations_create newDonation;
       donationsHistory_create history]) as (update & newDonation & history & Hcalls)
    by (eexists _, _, _; reflexivity).
  assert (Hh : donationsHistory_create history
    ∈ (_doTransfer sample_pledgeState (sample_services []) sample_split).1)
    by (rewrite Hcalls; do 2 apply list_elem_of_further; apply list_elem_of_here).
  assert (Hp : donations_patch (JStr "d1") update
    ∈ (_doTransfer sample_pledgeState (sample_services []) sample_split).1)
    by (rewrite Hcalls; apply list_elem_of_here).
  assert (Hc : donations_create newDonation
    ∈ (_doTransfer sample_pledgeState (sample_services []) sample_split).1)
    by (rewrite Hcalls; apply list_elem_of_further, list_elem_of_here).
  exists history, update, newDonation. split; [exact Hh|].
  split; [exact Hp|]. split; [exact Hc|].
  destruct (history_follows_accepted_writes sample_pledgeState (sample_services [])
              sample_split history Hh) as [H1 H2].
  split; [exact (H1 _ _ Hp) | exact (H2 _ Hc)].
Defined.

(** X9: the donation a split creates is the matched donation moved to the
    destination pledge: it has no [_id], [giver], [ownerEntity],
    [requiredConfirmations] or [confirmations] field, its [pledgeId] and
    [amount] are the destination pledge and the transferred amount, and its
    [txHash] and [giverAddress] are those of the matched donation. *)
Theorem created_donation_is_a_clean_copy (hp : string → jsval) (sv : Services)
    (transferInfo : TransferInfo) (data : obj) :
  donations_create data ∈ (_doTransfer hp sv transferInfo).1 →
  data !! "_id" = None ∧ data !! "giver" = None ∧ data !! "ownerEntity" = None ∧
  data !! "requiredConfirmations" = None ∧ data !! "confirmations" = None ∧
  field data "pledgeId" = JStr (toPledgeId transferInfo) ∧
  field data "amount" = JStr (amount transferInfo) ∧
  field data "txHash" = field (donation transferInfo) "txHash" ∧
  field data "giverAddress" = field (donation transferInfo) "giverAddress".
Proof.
  doTransfer_cases hp sv transferInfo; cbn [fst]; rewrite ?elem_of_app.
  - intros [Hc|[Hc|Hc]].
    + by apply (milestone_calls_only _ _ Hms) in Hc.
    + by apply list_elem_of_singleton in Hc.
    + destruct (patched sv _ _); [|by apply not_elem_of_nil in Hc].
      by apply history_calls_only in Hc.
  - intros [Hc|[Hc|Hc]].
    + by apply (milestone_calls_only _ _ Hms) in Hc.
    + apply elem_of_cons in Hc as [Hc|Hc]; [done|].
      apply list_elem_of_singleton in Hc.
      assert (data = delete "confirmations" (delete "requiredConfirmations"
                (delete "ownerEntity" (delete "giver" (delete "_id"
                  (assign (donation transferInfo) mutation)))))) as ->
        by congruence.
      unfold field, assign. split_and!.
      * rewrite ?lookup_delete_ne by done. by rewrite lookup_delete_eq.
      * rewrite ?lookup_delete_ne by done. by rewrite lookup_delete_eq.
      * rewrite ?lookup_delete_ne by done. by rewrite lookup_delete_eq.
      * rewrite ?lookup_delete_ne by done. by rewrite lookup_delete_eq.
      * by rewrite lookup_delete_eq.
      * rewrite !lookup_delete_ne by done.
        by erewrite lookup_union_Some_l by exact HpledgeId.
      * rewrite !lookup_delete_ne by done.
        by erewrite lookup_union_Some_l by exact Hamount.
      * rewrite !lookup_delete_ne by done. by rewrite lookup_union_r.
      * rewrite !lookup_delete_ne by done. by rewrite lookup_union_r.
    + destruct (patched sv _ _); [|by apply not_elem_of_nil in Hc].
      destruct (created sv _); [|by apply not_elem_of_nil in Hc].
      by apply history_calls_only in Hc.
  - intros Hc. by apply (milestone_calls_only _ _ Hms) in Hc.
  - intros Hc. by apply (milestone_calls_only _ _ Hms) in Hc.
Qed.

Lemma created_donation_is_a_clean_copy_witness :
  ∃ data,
    donations_create data
      ∈ (_doTransfer sample_pledgeState (sample_services []) sample_split).1 ∧
    data !! "_id" = None ∧ field data "pledgeId" = JStr "2" ∧
    field data "amount" = JStr "40" ∧ field data "txHash" = JStr "0xaa".
Proof.
  assert (∃ update data history,
    (_doTransfer sample_pledgeState (sample_services [])
       sample_split).1
    = [donations_patch (JStr "d1") update; donations_create data;
       donationsHistory_create history]) as (update & data & history & Hcalls)
    by (eexists _, _, _; reflexivity).
  assert (Hc : donations_create data
    ∈ (_doTransfer sample_pledgeState (sample_services [])
         sample_split).1)
    by (rewrite Hcalls; apply list_elem_of_further, list_elem_of_here).
  exists data. split; [exact Hc|].
  destruct (created_donation_is_a_clean_copy sample_pledgeState (sample_services [])
              sample_split data Hc)
    as (H1 & _ & _ & _ & _ & H2 & H3 & H4 & _).
  split_and!; [exact H1 | exact H2 | exact H3 | exact H4].
Defined.

(** X10: a transfer of amount ['0'] out of a donation whose amount is not
    the string ['0'] takes the split path: the matched donation is patched
    to status ['paid'] with its amount unchanged, and a donation of amount
    ['0'] is created. *)
Theorem zero_transfer_marks_the_donation_paid (hp : string → jsval) (sv : Services)
    (transferInfo : TransferInfo) (was : Z) :
  amount transferInfo = "0" →
  toBN (field (donation transferInfo) "amount") = Some was →
  is_str (field (donation transferInfo) "amount") "0" = false →
  ∃ update newDonation,
    filter (λ c, on_donations c = true) (_doTransfer hp sv transferInfo).1
      = [donations_patch (field (donation transferInfo) "_id") update;
         donations_create newDonation] ∧
    field update "status" = JStr "paid" ∧
    toBN (field update "amount") = Some was ∧
    field newDonation "amount" = JStr "0".
Proof.
  intros Hzero' Hwas' Hsplit.
  doTransfer_cases hp sv transferInfo; cbn [fst].
  - rewrite Hzero' in Hcomplete. congruence.
  - rewrite Hzero' in Hmoved. vm_compute in Hmoved.
    rewrite (Hzero Hzero'). simplify_eq. eexists _, _. split_and!.
    + destruct (milestone_calls_elsewhere _ Hms) as (H0 & _).
      rewrite !filter_app, H0.
      destruct (patched sv _ _); [|reflexivity].
      destruct (created sv _) as [toDonation|]; [|reflexivity].
      destruct (history_calls_elsewhere sv (with_toDonation transferInfo toDonation))
        as (H1 & _).
      rewrite H1. reflexivity.
    + reflexivity.
    + transitivity (toBN (JStr (toString (was - 0)))); [reflexivity|].
      rewrite toBN_toString. f_equal. lia.
    + unfold field, assign. rewrite !lookup_delete_ne by done.
      erewrite lookup_union_Some_l by exact Hamount. by rewrite Hzero'.
  - rewrite Hzero' in Hmoved. vm_compute in Hmoved. discriminate Hmoved.
  - congruence.
Qed.

Lemma zero_transfer_marks_the_donation_paid_witness :
  ∃ update newDonation,
    filter (λ c, on_donations c = true)
      (_doTransfer sample_pledgeState (sample_services [])
         sample_zero).1
      = [donations_patch (JStr "d1") update; donations_create newDonation] ∧
    field update "status" = JStr "paid" ∧
    toBN (field update "amount") = Some 100%Z ∧
    field newDonation "amount" = JStr "0".
Proof.
  apply (zero_transfer_marks_the_donation_paid sample_pledgeState (sample_services [])
           sample_zero 100); reflexivity.
Defined.

(** X11: when the matched donation had an intended project and a delegate
    and the destination pledge has neither, the mutation drops its
    [intendedProject] field and ends up with a [$unset] directive that
    names the three delegate fields only: the directive for the intended
    project fields is replaced, not merged. *)
Theorem unset_of_intended_project_is_replaced (hp : string → jsval)
    (transferInfo : TransferInfo) :
  intendedProject transferInfo = None →
  delegate transferInfo = None →
  truthy (field (donation transferInfo) "intendedProject") = true →
  truthy (field (donation transferInfo) "delegate") = true →
  ∃ mutation,
    (createDonationMutation hp transferInfo).2 = Fulfilled mutation ∧
    mutation !! "intendedProject" = None ∧
    mutation !! "$unset" = Some (JObj [("delegate", JBool true);
                                       ("delegateId", JBool true);
                                       ("delegateType", JBool true)]).
Proof.
  intros Hproject Hdelegate Hhad_project Hhad_delegate.
  unfold createDonationMutation.
  rewrite Hproject, Hdelegate, Hhad_project, Hhad_delegate.
  rewrite bind_result.
  match goal with |- context [if ?b then emit ?c else mret tt] => destruct b end;
    cbn; eexists; split_and!; reflexivity.
Qed.

Lemma unset_of_intended_project_is_replaced_witness :
  ∃ mutation,
    (createDonationMutation sample_pledgeState sample_both_dropped).2
      = Fulfilled mutation ∧
    mutation !! "intendedProject" = None ∧
    mutation !! "$unset" = Some (JObj [("delegate", JBool true);
                                       ("delegateId", JBool true);
                                       ("delegateType", JBool true)]).
Proof.
  apply (unset_of_intended_project_is_replaced sample_pledgeState
           sample_both_dropped); reflexivity.
Defined.

Lemma createDonationMutation_calls_exact (hp : string → jsval)
    (transferInfo : TransferInfo) :
  (createDonationMutation hp transferInfo).1
  = if ((Pledge.pledgeState (toPledge transferInfo) =? "1")%string
        || (Pledge.pledgeState (toPledge transferInfo) =? "2")%string)
       && (PledgeAdmin.type (toPledgeAdmin transferInfo) =? "milestone")%string
    then [milestones_patch (PledgeAdmin.typeId (toPledgeAdmin transferInfo))
            (object [("status",
                      JStr (if (Pledge.pledgeState (toPledge transferInfo) =? "1")%string
                            then "Paying" else "Paid"));
                     ("mined", JBool true)])]
    else [].
Proof.
  unfold createDonationMutation. rewrite bind_calls.
  match goal with |- context [if ?b then emit ?c else mret tt] => destruct b end;
    reflexivity.
Qed.

Lemma milestone_calls_kept (calls : list call) :
  Forall (λ c, on_milestones c = true) calls →
  filter (λ c, on_milestones c = true) calls = calls.
Proof.
  induction 1 as [|c calls Hc _ IH]; [done|].
  rewrite filter_cons, decide_True by done. by rewrite IH.
Qed.

(** X12: whether a transfer is complete, a split, or fails on a malformed
    amount or a rejected write, the milestone store is patched exactly when
    the destination pledge is in state ['1'] or ['2'] and its owner is a
    milestone: once, for that milestone, with [mined: true] and the status
    ['Paying'] or ['Paid']. *)
Theorem milestone_is_patched_when_paying_or_paid (hp : string → jsval)
    (sv : Services) (transferInfo : TransferInfo) :
  filter (λ c, on_milestones c = true) (_doTransfer hp sv transferInfo).1
  = if ((Pledge.pledgeState (toPledge transferInfo) =? "1")%string
        || (Pledge.pledgeState (toPledge transferInfo) =? "2")%string)
       && (PledgeAdmin.type (toPledgeAdmin transferInfo) =? "milestone")%string
    then [milestones_patch (PledgeAdmin.typeId (toPledgeAdmin transferInfo))
            (object [("status",
                      JStr (if (Pledge.pledgeState (toPledge transferInfo) =? "1")%string
                            then "Paying" else "Paid"));
                     ("mined", JBool true)])]
    else [].
Proof.
  pose proof (createDonationMutation_calls_exact hp transferInfo) as Hexact.
  doTransfer_cases hp sv transferInfo; cbn [fst]; rewrite Hm in Hexact;
    cbn [fst] in Hexact; rewrite <- Hexact; rewrite ?filter_app;
    rewrite (milestone_calls_kept _ Hms).
  - destruct (patched sv _ _).
    + destruct (history_calls_elsewhere sv transferInfo) as (_ & H1 & _).
      rewrite H1. cbn. by rewrite app_nil_r.
    + cbn. by rewrite app_nil_r.
  - destruct (patched sv _ _); [|cbn; by rewrite app_nil_r].
    destruct (created sv _) as [toDonation|]; [|cbn; by rewrite app_nil_r].
    destruct (history_calls_elsewhere sv (with_toDonation transferInfo toDonation))
      as (_ & H1 & _).
    rewrite H1. cbn. by rewrite app_nil_r.
  - done.
  - done.
Qed.

(** [_transfer] either fails before [_doTransfer] and logs the error, or
    runs [_doTransfer] on the context it read. *)
Lemma transfer_unfold (hp : string → jsval) (sv : Services)
    (from to amount : string) (ts0 : Z) (txHash : string) :
  (∃ e, _transfer hp sv from to amount ts0 txHash = ([logger_error e], Fulfilled tt))
  ∨ (∃ transferInfo,
       _transfer hp sv from to amount ts0 txHash
         = catch_logger_error (_doTransfer hp sv transferInfo) ∧
       getPledge sv from = Some (fromPledge transferInfo) ∧
       getPledge sv to = Some (toPledge transferInfo) ∧
       pledgeAdmins_get sv (Pledge.owner (fromPledge transferInfo))
         = Some (fromPledgeAdmin transferInfo) ∧
       pledgeAdmins_get sv (Pledge.owner (toPledge transferInfo))
         = Some (toPledgeAdmin transferInfo) ∧
       toPledgeId transferInfo = to ∧ Pledges.amount transferInfo = amount ∧
       (getDonation sv from to amount ts0 txHash).2
         = Fulfilled (donation transferInfo) ∧
       bool_decide (is_Some (delegate transferInfo))
         = gt0 (Pledge.nDelegates (toPledge transferInfo)) ∧
       bool_decide (is_Some (intendedProject transferInfo))
         = gt0 (Pledge.intendedProject (toPledge transferInfo))).
Proof.
  unfold _transfer.
  destruct (getPledge sv from) as [fromPledge|] eqn:Hfrom; [|left; by eexists].
  cbn [read]. rewrite ret_bind.
  destruct (getPledge sv to) as [toPledge|] eqn:Hto; [|left; by eexists].
  cbn [read]. rewrite ret_bind.
  destruct (pledgeAdmins_get sv (Pledge.owner fromPledge)) as [fromPledgeAdmin|]
    eqn:Hfa; [|left; by eexists].
  cbn [read]. rewrite ret_bind.
  destruct (pledgeAdmins_get sv (Pledge.owner toPledge)) as [toPledgeAdmin|]
    eqn:Hta; [|left; by eexists].
  cbn [read]. rewrite ret_bind.
  pose proof (getDonation_no_calls sv from to amount ts0 txHash) as Hcalls.
  pose proof (settles_getDonation sv from to amount ts0 txHash) as Hsettles.
  unfold settles in Hsettles.
  destruct (getDonation sv from to amount ts0 txHash) as [calls [donation|e|]];
    cbn [fst snd] in Hcalls, Hsettles; subst calls; [|left; by eexists|done].
  change ([], Fulfilled donation) with (ret donation : M obj). rewrite ret_bind.
  destruct (gt0 (Pledge.nDelegates toPledge)) eqn:Hdelegates.
  - destruct (getPledgeDelegate sv to (Pledge.nDelegates toPledge)) as [idDelegate|];
      [|left; by eexists].
    cbn [read]. rewrite ret_bind.
    destruct (pledgeAdmins_get sv idDelegate) as [delegate|]; [|left; by eexists].
    cbn [read]. rewrite !ret_bind.
    destruct (gt0 (Pledge.intendedProject toPledge)) eqn:Hproject.
    + destruct (pledgeAdmins_get sv (Pledge.intendedProject toPledge))
        as [intendedProject|]; [|left; by eexists].
      cbn [read]. rewrite !ret_bind.
      right. eexists. split; [reflexivity|]. cbn. by split_and!.
    + change (mret None) with (ret None : M (option PledgeAdmin.t)).
      rewrite ret_bind.
      right. eexists. split; [reflexivity|]. cbn. by split_and!.
  - change (mret None) with (ret None : M (option PledgeAdmin.t)).
    rewrite ret_bind.
    destruct (gt0 (Pledge.intendedProject toPledge)) eqn:Hproject.
    + destruct (pledgeAdmins_get sv (Pledge.intendedProject toPledge))
        as [intendedProject|]; [|left; by eexists].
      cbn [read]. rewrite !ret_bind.
      right. eexists. split; [reflexivity|]. cbn. by split_and!.
    + change (mret None) with (ret None : M (option PledgeAdmin.t)).
      rewrite ret_bind.
      right. eexists. split; [reflexivity|]. cbn. by split_and!.
Qed.

Lemma doTransfer_stores_only (hp : string → jsval) (sv : Services)
    (transferInfo : TransferInfo) :
  filter (λ c, on_logger c = true) (_doTransfer hp sv transferInfo).1 = []
  ∧ filter (λ c, on_queue c = true) (_doTransfer hp sv transferInfo).1 = [].
Proof.
  doTransfer_cases hp sv transferInfo; cbn [fst];
    destruct (milestone_calls_elsewhere _ Hms) as (_ & _ & H0 & H0');
    rewrite ?filter_app, ?H0, ?H0'; try done.
  - destruct (patched sv _ _); [|done].
    destruct (history_calls_elsewhere sv transferInfo) as (_ & _ & H1 & H1').
    by rewrite H1, H1'.
  - destruct (patched sv _ _); [|done].
    destruct (created sv _) as [toDonation|]; [|done].
    destruct (history_calls_elsewhere sv (with_toDonation transferInfo toDonation))
      as (_ & _ & H1 & H1').
    by rewrite H1, H1'.
Qed.

Lemma transfer_never_queues (hp : string → jsval) (sv : Services)
    (from to amount : string) (ts0 : Z) (txHash : string) :
  filter (λ c, on_queue c = true) (_transfer hp sv from to amount ts0 txHash).1 = [].
Proof.
  destruct (transfer_unfold hp sv from to amount ts0 txHash)
    as [[e Heq]|(transferInfo & Heq & _)]; rewrite Heq; [done|].
  destruct (doTransfer_stores_only hp sv transferInfo) as [_ Hqueue].
  destruct (_doTransfer hp sv transferInfo) as [calls [[]|e|]];
    cbn [fst snd catch_logger_error] in *; [done| |done].
  by rewrite filter_app, Hqueue.
Qed.

(** X13: [_transfer] never rejects and never touches the queue; whatever
    goes wrong in it is handed to [logger.error], at most once, as the last
    thing [_transfer] does. *)
Theorem transfer_reports_failures_once (hp : string → jsval) (sv : Services)
    (from to amount : string) (ts0 : Z) (txHash : string) :
  (_transfer hp sv from to amount ts0 txHash).2 = Fulfilled tt ∧
  filter (λ c, on_queue c = true) (_transfer hp sv from to amount ts0 txHash).1 = [] ∧
  (filter (λ c, on_logger c = true) (_transfer hp sv from to amount ts0 txHash).1 = []
   ∨ ∃ e calls,
       (_transfer hp sv from to amount ts0 txHash).1 = calls ++ [logger_error e] ∧
       filter (λ c, on_logger c = true) calls = []).
Proof.
  split; [apply transfer_always_fulfilled|].
  split; [apply transfer_never_queues|].
  destruct (transfer_unfold hp sv from to amount ts0 txHash)
    as [[e Heq]|(transferInfo & Heq & _)]; rewrite Heq.
  - right. exists e, []. done.
  - destruct (doTransfer_stores_only hp sv transferInfo) as [Hlog _].
    destruct (_doTransfer hp sv transferInfo) as [calls [[]|e|]];
      cbn [fst snd catch_logger_error] in *.
    + by left.
    + right. by exists e, calls.
    + by left.
Qed.

(** X14: when one of the two pledges cannot be read, [_transfer] logs the
    rejection and does nothing else: no store is called. *)
Theorem unreadable_pledge_is_only_logged (hp : string → jsval) (sv : Services)
    (from to amount : string) (ts0 : Z) (txHash : string) :
  getPledge sv from = None ∨ getPledge sv to = None →
  _transfer hp sv from to amount ts0 txHash
    = ([logger_error (Rejection "getPledge")], Fulfilled tt).
Proof.
  intros Hmissing. unfold _transfer.
  destruct (getPledge sv from) as [fromPledge|].
  - destruct Hmissing as [Hfrom | Hto]; [done|]. by rewrite Hto.
  - reflexivity.
Qed.

Lemma unreadable_pledge_is_only_logged_witness :
  getPledge (sample_services []) "9" = None ∧
  _transfer sample_pledgeState (sample_services []) "1" "9" "100" 5 "0xaa"
    = ([logger_error (Rejection "getPledge")], Fulfilled tt).
Proof.
  split; [reflexivity|].
  apply (unreadable_pledge_is_only_logged sample_pledgeState (sample_services [])
           "1" "9" "100" 5 "0xaa").
  right. reflexivity.
Defined.

(** X15: every write by which [_transfer] puts a donation on the
    destination pledge, the patch of a complete transfer and the create of
    a split alike, carries the status that [getDonationStatus] gives for
    the destination pledge and its owner, with "has an intended project"
    and "has a delegate" read off the pledge's [intendedProject] and
    [nDelegates]. *)
Theorem transfer_status_comes_from_the_destination (hp : string → jsval)
    (sv : Services) (from to amount : string) (ts0 : Z) (txHash : string)
    (toPledge : Pledge.t) (toPledgeAdmin : PledgeAdmin.t) (c : call) (data : obj) :
  getPledge sv to = Some toPledge →
  pledgeAdmins_get sv (Pledge.owner toPledge) = Some toPledgeAdmin →
  c ∈ (_transfer hp sv from to amount ts0 txHash).1 →
  written c = Some data →
  field data "pledgeId" = JStr to →
  field data "status" = JStr (status_from_context toPledge toPledgeAdmin).
Proof.
  intros Hto Hadmin Hc Hdata Hpledge.
  destruct (transfer_unfold hp sv from to amount ts0 txHash)
    as [[e He]|(transferInfo & Heq & _ & Hto' & _ & Hadmin' & _ & _ & _ & Hd & Hp)].
  { rewrite He in Hc. apply list_elem_of_singleton in Hc. by subst c. }
  rewrite Hto in Hto'. injection Hto' as ->.
  rewrite Hadmin in Hadmin'. injection Hadmin' as ->.
  assert (Hc' : c ∈ (_doTransfer hp sv transferInfo).1).
  { rewrite Heq in Hc.
    destruct (_doTransfer hp sv transferInfo) as [calls [[]|e|]];
      cbn [fst snd catch_logger_error] in *; [done| |done].
    apply elem_of_app in Hc as [Hc|Hc]; [done|].
    apply list_elem_of_singleton in Hc. by subst c. }
  clear Hc Heq. revert Hc'.
  assert (Hgoal : ∀ mutation : obj,
    mutation !! "status" = Some (JStr
      (getDonationStatus (Pledges.toPledge transferInfo)
         (Pledges.toPledgeAdmin transferInfo)
         (JBool (bool_decide (is_Some (intendedProject transferInfo))))
         (JBool (bool_decide (is_Some (delegate transferInfo)))))) →
    mutation !! "status"
      = Some (JStr (status_from_context (Pledges.toPledge transferInfo)
                      (Pledges.toPledgeAdmin transferInfo)))).
  { intros mutation ->. unfold status_from_context. by rewrite Hd, Hp. }
  doTransfer_cases hp sv transferInfo; cbn [fst]; rewrite ?elem_of_app.
  - intros [Hc|[Hc|Hc]].
    + apply (milestone_calls_only _ _ Hms) in Hc. by destruct c.
    + apply list_elem_of_singleton in Hc. subst c. injection Hdata as <-.
      unfold field. by rewrite (Hgoal _ Hstatus).
    + destruct (patched sv _ _); [|by apply not_elem_of_nil in Hc].
      apply history_calls_only in Hc. by destruct c.
  - intros [Hc|[Hc|Hc]].
    + apply (milestone_calls_only _ _ Hms) in Hc. by destruct c.
    + apply elem_of_cons in Hc as [Hc|Hc].
      * subst c. injection Hdata as <-. vm_compute in Hpledge. discriminate Hpledge.
      * apply list_elem_of_singleton in Hc. subst c. injection Hdata as <-.
        unfold field, assign. rewrite !lookup_delete_ne by done.
        by erewrite lookup_union_Some_l by exact (Hgoal _ Hstatus).
    + destruct (patched sv _ _); [|by apply not_elem_of_nil in Hc].
      destruct (created sv _); [|by apply not_elem_of_nil in Hc].
      apply history_calls_only in Hc. by destruct c.
  - intros Hc. apply (milestone_calls_only _ _ Hms) in Hc. by destruct c.
  - intros Hc. apply (milestone_calls_only _ _ Hms) in Hc. by destruct c.
Qed.

Lemma transfer_status_comes_from_the_destination_witness :
  ∃ c data,
    c ∈ (_transfer sample_pledgeState
           (sample_services [sample_donation "d1" "1" "100" "0xaa"])
           "1" "2" "100" 5 "0xaa").1 ∧
    written c = Some data ∧ field data "pledgeId" = JStr "2" ∧
    field data "status" = JStr "committed".
Proof.
  assert (∃ data history,
    (_transfer sample_pledgeState
       (sample_services [sample_donation "d1" "1" "100" "0xaa"])
       "1" "2" "100" 5 "0xaa").1
    = [donations_patch (JStr "d1") data; donationsHistory_create history])
    as (data & history & Hcalls) by (eexists _, _; reflexivity).
  assert (Hc : donations_patch (JStr "d1") data
    ∈ (_transfer sample_pledgeState
         (sample_services [sample_donation "d1" "1" "100" "0xaa"])
         "1" "2" "100" 5 "0xaa").1)
    by (rewrite Hcalls; apply list_elem_of_here).
  assert (Hpledge : field data "pledgeId" = JStr "2").
  { injection Hcalls as <- _. reflexivity. }
  exists (donations_patch (JStr "d1") data), data.
  split; [exact Hc|]. split; [reflexivity|]. split; [exact Hpledge|].
  exact (transfer_status_comes_from_the_destination sample_pledgeState
           (sample_services [sample_donation "d1" "1" "100" "0xaa"])
           "1" "2" "100" 5 "0xaa" (sample_pledge "20" "0") (sample_admin "20" "campaign")
           _ data eq_refl eq_refl Hc eq_refl Hpledge).
Defined.

(** X16: the donation [getDonation] settles on is always one of the
    donations recorded for the source pledge. *)
Theorem getDonation_picks_a_candidate (sv : Services) (from to amount : string)
    (ts0 : Z) (txHash : string) (data : list obj) (d : obj) :
  donations sv = Some data →
  (getDonation sv from to amount ts0 txHash).2 = Fulfilled d →
  d ∈ data ∧ field d "pledgeId" = JStr from.
Proof.
  intros Hdata. unfold getDonation, find. rewrite Hdata.
  cbn [fmap option_fmap option_map read]. rewrite ret_bind.
  set (candidates := filter (λ d, is_str (field d "pledgeId") from = true) data).
  assert (Hcand : ∀ d, d ∈ candidates → d ∈ data ∧ field d "pledgeId" = JStr from).
  { intros d' [Hp Hin]%list_elem_of_filter. split; [done|].
    destruct (field d' "pledgeId") as [| | |s| |]; try discriminate Hp.
    cbn in Hp. by apply String.eqb_eq in Hp as ->. }
  assert (Hsub : ∀ (P : obj → Prop) `{!∀ x, Decision (P x)} d',
            head (filter P candidates) = Some d' → d' ∈ candidates).
  { intros P ? d' Hhead. apply head_Some_elem_of in Hhead.
    by apply list_elem_of_filter in Hhead as [_ ?]. }
  intros Hresult. apply Hcand.
  destruct candidates as [|c1 [|c2 rest]] eqn:Hc.
  - rewrite !filter_nil in Hresult. discriminate Hresult.
  - injection Hresult as <-. apply list_elem_of_here.
  - rewrite <- Hc in *.
    destruct (filter (λ donation, is_str (field donation "txHash") txHash = true)
                candidates) as [|t1 [|t2 trest]] eqn:Ht.
    + destruct (filter (λ donation, is_str (field donation "amount") amount = true)
                  candidates) as [|a1 arest] eqn:Ha.
      * rewrite Hc in Hresult. discriminate Hresult.
      * injection Hresult as <-. eapply (Hsub _ _ a1). by rewrite Ha.
    + injection Hresult as <-. eapply (Hsub _ _ t1). by rewrite Ht.
    + destruct (filter (λ donation, is_str (field donation "amount") amount = true)
                  candidates) as [|a1 arest] eqn:Ha.
      * rewrite Hc in Hresult. discriminate Hresult.
      * injection Hresult as <-. eapply (Hsub _ _ a1). by rewrite Ha.
Qed.

Lemma getDonation_picks_a_candidate_witness :
  sample_donation "d3" "1" "9" "0xbb" ∈ sample_candidates ∧
  field (sample_donation "d3" "1" "9" "0xbb") "pledgeId" = JStr "1".
Proof.
  apply (getDonation_picks_a_candidate (sample_services sample_candidates)
           "1" "2" "9" 5 "0xaa" sample_candidates); reflexivity.
Defined.

(** X17: [getDonation] is rejected with a [TypeError], and not with the error
    that describes the transfer, exactly when the source pledge has no
    donation at all. *)
Theorem no_candidate_is_a_TypeError (sv : Services) (from to amount : string)
    (ts0 : Z) (txHash : string) (data : list obj) :
  donations sv = Some data →
  (getDonation sv from to amount ts0 txHash).2 = RejectedWith TypeError
  ↔ filter (λ d, is_str (field d "pledgeId") from = true) data = [].
Proof.
  intros Hdata. unfold getDonation, find. rewrite Hdata.
  cbn [fmap option_fmap option_map read]. rewrite ret_bind.
  destruct (filter (λ d, is_str (field d "pledgeId") from = true) data)
    as [|c1 [|c2 rest]] eqn:Hc.
  - by rewrite !filter_nil.
  - split; discriminate.
  - destruct (filter (λ donation, is_str (field donation "txHash") txHash = true)
                (c1 :: c2 :: rest)) as [|t1 [|t2 trest]];
      destruct (filter (λ donation, is_str (field donation "amount") amount = true)
                  (c1 :: c2 :: rest)); split; discriminate.
Qed.

Lemma no_candidate_is_a_TypeError_witness :
  donations (sample_services []) = Some [] ∧
  (getDonation (sample_services []) "1" "2" "9" 5 "0xaa").2 = RejectedWith TypeError.
Proof.
  split; [reflexivity|].
  apply (no_candidate_is_a_TypeError (sample_services []) "1" "2" "9" 5 "0xaa" []);
    reflexivity.
Defined.

Lemma newDonation_never_queues (hp : string → jsval) (sv : Services)
    (pledgeId amount txHash : string) (retry : bool) :
  filter (λ c, on_queue c = true) (newDonation hp sv pledgeId amount txHash retry).1
  = [].
Proof.
  pose proof (newDonation_calls hp sv pledgeId amount txHash retry) as Hcalls.
  induction (newDonation hp sv pledgeId amount txHash retry).1 as [|c calls IH];
    [done|].
  rewrite filter_cons.
  destruct (Hcalls c (list_elem_of_here _ _)) as (data & Hdata & _).
  rewrite decide_False by (by destruct c).
  apply IH. intros c' Hc'. apply Hcalls. by apply list_elem_of_further.
Qed.

(** [newDonation] asks for the event to be processed again in one
    situation only, and has called nothing then. *)
Lemma newDonation_reprocess (hp : string → jsval) (sv : Services)
    (to amount txHash : string) (retry : bool) :
  (newDonation hp sv to amount txHash retry).2 = RejectedWith ReProcessEvent ↔
  newDonation hp sv to amount txHash retry = ([], RejectedWith ReProcessEvent) ∧
  retry = false ∧
  ∃ pledge giver data,
    getPledge sv to = Some pledge ∧
    pledgeAdmins_get sv (Pledge.owner pledge) = Some giver ∧
    donations sv = Some data ∧
    filter (λ d, is_str (field d "txHash") txHash = true) data = [].
Proof.
  split; [|by intros [-> _]].
  destruct (getPledge sv to) as [pledge|] eqn:Hpledge.
  2: { unfold newDonation. by rewrite Hpledge. }
  destruct (pledgeAdmins_get sv (Pledge.owner pledge)) as [giver|] eqn:Hgiver.
  2: { unfold newDonation. rewrite Hpledge. cbn [read]. rewrite ret_bind.
       by rewrite Hgiver. }
  destruct (donations sv) as [data|] eqn:Hdata.
  2: { unfold newDonation, find. rewrite Hpledge. cbn [read]. rewrite ret_bind.
       rewrite Hgiver. cbn [read]. rewrite ret_bind. by rewrite Hdata. }
  rewrite (newDonation_unfold hp sv to amount txHash retry pledge giver data
             Hpledge Hgiver Hdata).
  destruct (filter (λ d, is_str (field d "txHash") txHash = true) data)
    as [|d rest] eqn:Hmatching; cbn [head].
  - destruct retry.
    + unfold request. by destruct (created sv _).
    + intros _. split; [done|]. split; [done|]. by exists pledge, giver, data.
  - unfold request. by destruct (patched sv _ _).
Qed.

(** X18: once the block timestamp is there, an attempt at an event ends in
    exactly one of two ways: either its last call is [queue.purge(txHash)],
    the only call it makes on the queue, or its only call is the
    [setTimeout] that schedules the retry in 5000 ms.  The queue is never
    advanced twice, and never advanced while a retry is pending. *)
Theorem attempt_ends_with_purge_or_retry (hp : string → jsval) (sv : Services)
    (from to amount txHash : string) (ts0 : Z) (retry : bool) :
  (∃ calls,
     (processEvent hp sv from to amount txHash (Fulfilled ts0) retry).1
       = calls ++ [queue_purge txHash] ∧
     filter (λ c, on_queue c = true) calls = [])
  ∨ (processEvent hp sv from to amount txHash (Fulfilled ts0) retry).1
      = [setTimeout_processEvent true 5000].
Proof.
  unfold processEvent. change ([], Fulfilled ts0) with (ret ts0 : M Z).
  rewrite ret_bind. destruct (from =? "0")%string.
  - pose proof (newDonation_never_queues hp sv to amount txHash retry) as Hq.
    pose proof (settles_newDonation hp sv to amount txHash retry) as Hs.
    pose proof (newDonation_reprocess hp sv to amount txHash retry) as [Hre _].
    unfold settles in Hs.
    destruct (newDonation hp sv to amount txHash retry) as [calls [d|e|]];
      cbn [fst snd] in *; [| |done].
    + left. exists calls. split; [reflexivity | done].
    + destruct e.
      1: { right. destruct (Hre eq_refl) as [[= ->] _]. reflexivity. }
      all: left; eexists (calls ++ [logger_error _]); split;
        [ cbn; by rewrite <- app_assoc
        | by rewrite filter_app, Hq ].
  - pose proof (transfer_never_queues hp sv from to amount ts0 txHash) as Hq.
    pose proof (transfer_always_fulfilled hp sv from to amount ts0 txHash) as Hf.
    destruct (_transfer hp sv from to amount ts0 txHash) as [calls r].
    cbn [fst snd] in *. subst r. left. exists calls. split; [reflexivity | done].
Qed.

(** X19: an attempt schedules a retry in one situation only: the event is
    a mint, this is the first attempt, the destination pledge, its owner
    and the donation store can be read, and no donation carries the event's
    txHash.  A retried attempt, a transfer between pledges, and a mint that
    fails for any other reason are never put off. *)
Theorem retry_is_scheduled_only_for_a_missing_donation (hp : string → jsval)
    (sv : Services) (from to amount txHash : string) (ts0 : Z) (retry : bool) :
  (processEvent hp sv from to amount txHash (Fulfilled ts0) retry).1
    = [setTimeout_processEvent true 5000]
  ↔ from = "0" ∧ retry = false ∧
    ∃ pledge giver data,
      getPledge sv to = Some pledge ∧
      pledgeAdmins_get sv (Pledge.owner pledge) = Some giver ∧
      donations sv = Some data ∧
      filter (λ d, is_str (field d "txHash") txHash = true) data = [].
Proof.
  split.
  - intros Hcalls.
    destruct (processEvent_advances_queue hp sv from to amount txHash ts0 retry)
      as [_ [Hlast|(-> & -> & _)]].
    { rewrite Hcalls in Hlast. discriminate Hlast. }
    split; [done|]. split; [done|].
    rewrite processEvent_mint in Hcalls.
    pose proof (newDonation_reprocess hp sv to amount txHash false) as [Hre _].
    pose proof (newDonation_never_queues hp sv to amount txHash false) as Hq.
    destruct (newDonation hp sv to amount txHash false) as [calls [d|e|]];
      cbn [fst snd] in *.
    + cbn in Hcalls. apply (f_equal (filter (λ c, on_queue c = true))) in Hcalls.
      rewrite filter_app, Hq in Hcalls. discriminate Hcalls.
    + destruct e; try (apply Hre; reflexivity);
        cbn in Hcalls; apply (f_equal (filter (λ c, on_queue c = true))) in Hcalls;
        rewrite filter_app, Hq in Hcalls; discriminate Hcalls.
    + cbn in Hcalls. apply (f_equal (filter (λ c, on_queue c = true))) in Hcalls.
      rewrite Hq in Hcalls. discriminate Hcalls.
  - intros (-> & -> & pledge & giver & data & Hpledge & Hgiver & Hdata & Hnone).
    rewrite processEvent_mint,
      (newDonation_unfold hp sv to amount txHash false pledge giver data
         Hpledge Hgiver Hdata), Hnone.
    reflexivity.
Qed.

Lemma retry_is_scheduled_only_for_a_missing_donation_witness :
  (processEvent sample_pledgeState (sample_services []) "0" "1" "100" "0xaa"
     (Fulfilled 5%Z) false).1 = [setTimeout_processEvent true 5000] ∧
  (processEvent sample_pledgeState (sample_services []) "0" "9" "100" "0xaa"
     (Fulfilled 5%Z) false).1 ≠ [setTimeout_processEvent true 5000].
Proof.
  split.
  - apply (retry_is_scheduled_only_for_a_missing_donation sample_pledgeState
             (sample_services []) "0" "1" "100" "0xaa" 5 false).
    split; [reflexivity|]. split; [reflexivity|].
    exists (sample_pledge "10" "0"), (sample_admin "10" "giver"), [].
    split_and!; reflexivity.
  - intros H.
    apply (retry_is_scheduled_only_for_a_missing_donation sample_pledgeState
             (sample_services []) "0" "9" "100" "0xaa" 5 false) in H
      as (_ & _ & pledge & _ & _ & Hpledge & _).
    discriminate Hpledge.
Defined.

(** X20: whatever a mint writes, a created record or the patch of the
    donation that carries the txHash, is filled in from the event and from
    the destination pledge and its owner: pledge, amount, owner, owner id
    and type, giver address, and the payment status named after the pledge
    state.  It never carries an [_id], and it carries the [txHash] exactly
    when it is a create, so a patch leaves the donation's txHash alone. *)
Theorem mint_record_comes_from_the_pledge (hp : string → jsval) (sv : Services)
    (to amount txHash : string) (retry : bool)
    (pledge : Pledge.t) (giver : PledgeAdmin.t) (c : call) (data : obj) :
  getPledge sv to = Some pledge →
  pledgeAdmins_get sv (Pledge.owner pledge) = Some giver →
  c ∈ (newDonation hp sv to amount txHash retry).1 →
  written c = Some data →
  field data "pledgeId" = JStr to ∧ field data "amount" = JStr amount ∧
  field data "owner" = JStr (Pledge.owner pledge) ∧
  field data "ownerId" = PledgeAdmin.typeId giver ∧
  field data "ownerType" = JStr (PledgeAdmin.type giver) ∧
  field data "giverAddress" = PledgeAdmin.admin_address giver ∧
  field data "paymentStatus" = hp (Pledge.pledgeState pledge) ∧
  data !! "_id" = None ∧
  data !! "txHash" = match c with
                     | donations_create _ => Some (JStr txHash)
                     | _ => None
                     end.
Proof.
  intros Hpledge Hgiver.
  destruct (donations sv) as [stored|] eqn:Hstored.
  2: { unfold newDonation, find. rewrite Hpledge. cbn [read]. rewrite ret_bind.
       rewrite Hgiver. cbn [read]. rewrite ret_bind. rewrite Hstored.
       by intros ?%not_elem_of_nil. }
  rewrite (newDonation_unfold hp sv to amount txHash retry pledge giver stored
             Hpledge Hgiver Hstored).
  destruct (head _) as [d|].
  - unfold request.
    destruct (patched sv _ _); cbn; intros ->%list_elem_of_singleton [= <-];
      split_and!; reflexivity.
  - destruct retry; [|by intros ?%not_elem_of_nil].
    unfold request.
    destruct (created sv _); cbn; intros ->%list_elem_of_singleton [= <-];
      split_and!; reflexivity.
Qed.

Lemma mint_record_comes_from_the_pledge_witness :
  ∃ c data,
    c ∈ (newDonation sample_pledgeState
           (sample_services [sample_donation "d1" "9" "1" "0xaa"])
           "1" "100" "0xaa" false).1 ∧
    written c = Some data ∧
    field data "pledgeId" = JStr "1" ∧ field data "amount" = JStr "100" ∧
    field data "paymentStatus" = JStr "Pledged" ∧ data !! "txHash" = None.
Proof.
  assert (∃ data,
    (newDonation sample_pledgeState
       (sample_services [sample_donation "d1" "9" "1" "0xaa"])
       "1" "100" "0xaa" false).1 = [donations_patch (JStr "d1") data])
    as [data Hcalls] by (eexists; reflexivity).
  assert (Hc : donations_patch (JStr "d1") data
    ∈ (newDonation sample_pledgeState
         (sample_services [sample_donation "d1" "9" "1" "0xaa"])
         "1" "100" "0xaa" false).1)
    by (rewrite Hcalls; apply list_elem_of_here).
  exists (donations_patch (JStr "d1") data), data.
  split; [exact Hc|]. split; [reflexivity|].
  destruct (mint_record_comes_from_the_pledge sample_pledgeState
              (sample_services [sample_donation "d1" "9" "1" "0xaa"])
              "1" "100" "0xaa" false (sample_pledge "10" "0")
              (sample_admin "10" "giver") _ data eq_refl eq_refl Hc eq_refl)
    as (H1 & H2 & _ & _ & _ & _ & H3 & _ & H4).
  split_and!; [exact H1 | exact H2 | exact H3 | exact H4].
Defined.

Lemma split_history (sv : Services) (transferInfo : TransferInfo) (created : obj)
    (c : call) :
  c ∈ (trackDonationHistory sv (with_toDonation transferInfo created)).1 →
  ∃ history,
    c = donationsHistory_create history ∧
    field history "donationId" = field created "_id" ∧
    field history "fromDonationId" = field (donation transferInfo) "_id" ∧
    field history "fromOwnerId" = PledgeAdmin.typeId (fromPledgeAdmin transferInfo) ∧
    field history "ownerId" = PledgeAdmin.typeId (toPledgeAdmin transferInfo) ∧
    field history "amount" = JStr (amount transferInfo).
Proof.
  unfold trackDonationHistory.
  cbn [toDonation with_toDonation fromPledgeAdmin toPledgeAdmin fromPledge toPledge
       delegate donation amount].
  rewrite !(bool_decide_eq_false_2 (Some created = None)) by done.
  cbn [andb orb]. rewrite andb_false_r.
  destruct (Pledge.pledgeState (toPledge transferInfo) =? "0")%string;
    [|by intros ?%not_elem_of_nil].
  rewrite request_calls. intros ->%list_elem_of_singleton.
  eexists. split; [reflexivity|].
  destruct (delegate transferInfo); split_and!; reflexivity.
Qed.

(** X21: when a transfer both creates a donation and leaves a history
    entry, the create was accepted, and the entry points at the created
    donation, names the matched donation and its owner as the origin, and
    records the destination owner and the transferred amount. *)
Theorem split_history_links_both_donations (hp : string → jsval) (sv : Services)
    (transferInfo : TransferInfo) (data history : obj) :
  donations_create data ∈ (_doTransfer hp sv transferInfo).1 →
  donationsHistory_create history ∈ (_doTransfer hp sv transferInfo).1 →
  ∃ created,
    Pledges.created sv data = Some created ∧
    field history "donationId" = field created "_id" ∧
    field history "fromDonationId" = field (donation transferInfo) "_id" ∧
    field history "fromOwnerId" = PledgeAdmin.typeId (fromPledgeAdmin transferInfo) ∧
    field history "ownerId" = PledgeAdmin.typeId (toPledgeAdmin transferInfo) ∧
    field history "amount" = JStr (amount transferInfo).
Proof.
  doTransfer_cases hp sv transferInfo; cbn [fst]; rewrite ?elem_of_app.
  - intros [Hc|[Hc|Hc]] _.
    + by apply (milestone_calls_only _ _ Hms) in Hc.
    + by apply list_elem_of_singleton in Hc.
    + destruct (patched sv _ _); [|by apply not_elem_of_nil in Hc].
      by apply history_calls_only in Hc.
  - intros [Hc|[Hc|Hc]] [Hh|[Hh|Hh]];
      try (by apply (milestone_calls_only _ _ Hms) in Hc);
      try (by apply (milestone_calls_only _ _ Hms) in Hh).
    + apply elem_of_cons in Hh as [Hh|Hh]; [done|].
      by apply list_elem_of_singleton in Hh.
    + apply elem_of_cons in Hc as [Hc|Hc]; [done|].
      apply list_elem_of_singleton in Hc.
      destruct (patched sv _ _); [|by apply not_elem_of_nil in Hh].
      destruct (created sv _) as [toDonation|] eqn:Hcreated;
        [|by apply not_elem_of_nil in Hh].
      destruct (split_history sv transferInfo toDonation _ Hh)
        as (history' & [= <-] & Hfields).
      exists toDonation. split; [|exact Hfields].
      injection Hc as ->. exact Hcreated.
    + destruct (patched sv _ _); [|by apply not_elem_of_nil in Hc].
      destruct (created sv _); [|by apply not_elem_of_nil in Hc].
      by apply history_calls_only in Hc.
    + destruct (patched sv _ _); [|by apply not_elem_of_nil in Hc].
      destruct (created sv _); [|by apply not_elem_of_nil in Hc].
      by apply history_calls_only in Hc.
  - intros Hc. by apply (milestone_calls_only _ _ Hms) in Hc.
  - intros Hc. by apply (milestone_calls_only _ _ Hms) in Hc.
Qed.

Lemma split_history_links_both_donations_witness :
  ∃ data history,
    donations_create data
      ∈ (_doTransfer sample_pledgeState (sample_services []) sample_split).1 ∧
    donationsHistory_create history
      ∈ (_doTransfer sample_pledgeState (sample_services []) sample_split).1 ∧
    field history "donationId" = JStr "new" ∧
    field history "fromDonationId" = JStr "d1".
Proof.
  assert (∃ update data history,
    (_doTransfer sample_pledgeState (sample_services []) sample_split).1
    = [donations_patch (JStr "d1") update; donations_create data;
       donationsHistory_create history]) as (update & data & history & Hcalls)
    by (eexists _, _, _; reflexivity).
  assert (Hc : donations_create data
    ∈ (_doTransfer sample_pledgeState (sample_services []) sample_split).1)
    by (rewrite Hcalls; apply list_elem_of_further, list_elem_of_here).
  assert (Hh : donationsHistory_create history
    ∈ (_doTransfer sample_pledgeState (sample_services []) sample_split).1)
    by (rewrite Hcalls; do 2 apply list_elem_of_further; apply list_elem_of_here).
  exists data, history. split; [exact Hc|]. split; [exact Hh|].
  destruct (split_history_links_both_donations sample_pledgeState (sample_services [])
              sample_split data history Hc Hh)
    as (created & Hcreated & H1 & H2 & _).
  injection Hcreated as <-. split.
  - rewrite H1. unfold field. by rewrite lookup_insert_eq.
  - rewrite H2. reflexivity.
Defined.

End PledgesMore.
